(** * gover: install, build and launch Go release toolchains

    A shallow embedding of [main.go] of the gover command and the
    properties of its install pipeline and of its environment composer.

    Go strings are byte sequences: they are modelled as [string] (a list of
    8-bit [ascii]).  A Go [error] is modelled by its message.  The calls the
    program makes to the operating system, the network and the OpenPGP
    library are answered by a record of collaborators, and every such call
    is written, with its answer, to an interaction log. *)

From Stdlib Require Import ZArith Ascii String.
From stdpp Require Import base tactics option list gmap strings.

Open Scope string_scope.
Open Scope list_scope.
Open Scope stdpp_scope.

(** ** Package [strings] *)

Module strings.

(** [strings.IndexByte(s, c)]: the index of the first [c] in [s], or -1. *)
Fixpoint IndexByte (s : string) (c : ascii) : Z :=
  match s with
  | EmptyString => (-1)%Z
  | String a s' =>
      if Ascii.eqb a c then 0%Z
      else let r := IndexByte s' c in
           if (r <? 0)%Z then (-1)%Z else (1 + r)%Z
  end.

(** [strings.Index(s, substr)] for a one-byte [substr], the only use the
    program makes of it ([strings.Index] delegates to [IndexByte] there). *)
Definition Index (s : string) (c : ascii) : Z := IndexByte s c.

(** The slice [s[:n]]. *)
Definition slice_to (s : string) (n : Z) : string :=
  String.substring 0 (Z.to_nat n) s.

Definition isUpper (a : ascii) : bool :=
  ((65 <=? nat_of_ascii a)%nat && (nat_of_ascii a <=? 90)%nat)%bool.

Definition lowerByte (a : ascii) : ascii :=
  if isUpper a then ascii_of_nat (nat_of_ascii a + 32) else a.

Fixpoint isASCII (s : string) : bool :=
  match s with
  | EmptyString => true
  | String a s' => ((nat_of_ascii a <? 128)%nat && isASCII s')%bool
  end.

Fixpoint mapBytes (f : ascii → ascii) (s : string) : string :=
  match s with
  | EmptyString => EmptyString
  | String a s' => String (f a) (mapBytes f s')
  end.

(** [strings.ToLower]: a string of ASCII bytes only is lowered byte by
    byte; any other string goes through the Unicode case tables, which
    are the parameter [unicodeLower]. *)
Definition ToLower (unicodeLower : string → string) (s : string) : string :=
  if isASCII s then mapBytes lowerByte s else unicodeLower s.

End strings.

(** ** The environment composer: [dedupEnv] *)

Section dedup.

Variable unicodeLower : string → string.

(** The key under which an entry is remembered in [saw]: [None] for an
    entry that is copied through ([eq < 1]). *)
Definition envKey (caseInsensitive : bool) (kv : string) : option string :=
  let eq := strings.Index kv "=" in
  if (eq <? 1)%Z then None
  else
    let k := strings.slice_to kv eq in
    Some (if caseInsensitive then strings.ToLower unicodeLower k else k).

(** One iteration of the loop of [dedupEnv] over the state [(out, saw)].
    The assignment [out[dupIdx] = kv] is the list update; Go panics when
    the index is out of range, which [saw_in_range] excludes. *)
Definition dedupStep (caseInsensitive : bool)
    (st : list string * gmap string nat) (kv : string)
    : list string * gmap string nat :=
  let '(out, saw) := st in
  match envKey caseInsensitive kv with
  | None => (out ++ [kv], saw)
  | Some k =>
      match saw !! k with
      | Some dupIdx => (<[dupIdx := kv]> out, saw)
      | None => (out ++ [kv], <[k := length out]> saw)
      end
  end.

Definition dedupLoop (caseInsensitive : bool) (env : list string)
    (st : list string * gmap string nat) : list string * gmap string nat :=
  fold_left (dedupStep caseInsensitive) env st.

Definition dedupEnv (caseInsensitive : bool) (env : list string) : list string :=
  fst (dedupLoop caseInsensitive env ([], ∅)).

(** The entries of a list that carry the key [k]. *)
Definition withKey (caseInsensitive : bool) (k : string) (l : list string)
    : list string :=
  filter (λ e, envKey caseInsensitive e = Some k) l.

(** The position of the first entry with key [k]. *)
Definition firstIndex (caseInsensitive : bool) (k : string) (l : list string)
    : option nat :=
  fst <$> list_find (λ e, envKey caseInsensitive e = Some k) l.

(** The loop invariant: [saw] is exactly the index of the keyed entries
    of [out]. *)
Definition saw_ok (caseInsensitive : bool)
    (st : list string * gmap string nat) : Prop :=
  (∀ k i, st.2 !! k = Some i →
          ∃ e, st.1 !! i = Some e ∧ envKey caseInsensitive e = Some k) ∧
  (∀ i e k, st.1 !! i = Some e → envKey caseInsensitive e = Some k →
            st.2 !! k = Some i).

End dedup.


(** ** Errors, files and the interaction log *)

(** A Go [error], by its message. *)
Definition error := string.

Inductive result (A : Type) : Type :=
| Ok (a : A)
| Err (e : error).
Arguments Ok {A} a.
Arguments Err {A} e.

(** An open [*os.File]: its name, the bytes it holds and its cursor. *)
Record File := { Name : string; data : string; offset : nat }.

(** The bytes of a file from its cursor on. *)
Definition unread (f : File) : string :=
  String.substring (offset f) (String.length (data f) - offset f) (data f).

(** A file after [n] more bytes were read from it. *)
Definition advance (f : File) (n : nat) : File :=
  {| Name := Name f; data := data f;
     offset := offset f + Nat.min n (String.length (data f) - offset f) |}.

(** [f.Seek(0, 0)]. *)
Definition rewind (f : File) : File :=
  {| Name := Name f; data := data f; offset := 0 |}.

(** An [*http.Response]: status code and body. *)
Record Response := { StatusCode : Z; Body : string }.

(** An [*exec.Cmd]; [Env = None] is Go's [nil]: the child inherits the
    environment of the process. *)
Record Cmd := {
  Path : string;
  Args : list string;
  Dir : string;
  Env : option (list string);
  Stdin : bool;
  Stdout : bool;
  Stderr : bool
}.

(** [exec.Command(name, arg...)]. *)
Definition Command (name : string) (arg : list string) : Cmd :=
  {| Path := name; Args := name :: arg; Dir := ""; Env := None;
     Stdin := false; Stdout := false; Stderr := false |}.

(** The error of [cmd.Run]: an [*exec.ExitError] or anything else. *)
Inductive runError :=
| ExitError (e : error)
| OtherError (e : error).

Definition runError_msg (e : runError) : error :=
  match e with ExitError m | OtherError m => m end.

(** One call to a collaborator, with its answer. *)
Inductive Event :=
| EvStat (name : string) (r : option error)
| EvMkdirAll (path : string) (perm : Z) (r : option error)
| EvCreate (name : string) (r : option error)
| EvGet (url : string) (r : result Response)
| EvCopy (dst : string) (body : string) (r : option error)
| EvBodyClose (url : string)
| EvSeek (f : File) (r : option error)
| EvClose (f : File)
| EvReadKeyRing (r : option error)
| EvCheckSignature (signed sig : File) (r : option error)
| EvUntar (f : File) (dir : string) (r : option error)
| EvOutput (c : Cmd) (r : result string)
| EvRun (c : Cmd) (r : option runError)
| EvReadDir (name : string) (r : result (list string))
| EvPrintf (format : string) (args : list string)
| EvPrintln (s : string)
| EvLog (s : string)
| EvPledge (promises : string)
| EvUnveil (path flags : string)
| EvUnveilBlock
| EvPanic (s : string).

Definition Trace := list Event.

(** The collaborators of the program.  What the file system, the network
    and a child process answer may depend on everything that happened
    before, so those take the log so far. *)
Record Sys := {
  KeyRing : Type;
  GOOS : string;
  pubKey : string;
  os_Args : list string;
  os_Environ : list string;
  os_Getenv : string → string;
  (** [user.Current()], reduced to the [HomeDir] of the user *)
  user_Current : result string;
  unicode_ToLower : string → string;
  strings_TrimSpace : string → string;
  filepath_Join : list string → string;
  filepath_ListSeparator : string;
  path_Dir : string → string;
  os_Stat : Trace → string → option error;
  os_MkdirAll : Trace → string → Z → option error;
  os_Create : Trace → string → option error;
  os_ReadDir : Trace → string → result (list string);
  http_Get : Trace → string → result Response;
  io_Copy : Trace → string → string → option error;
  file_Seek : Trace → File → option error;
  openpgp_ReadArmoredKeyRing : string → result KeyRing;
  (** the verdict, and how many bytes were read from the signed file and
      from the signature file *)
  openpgp_CheckArmoredDetachedSignature :
    KeyRing → string → string → option error * nat * nat;
  (** [Untar], of untar.go *)
  Untar : Trace → File → string → option error;
  cmd_Output : Trace → Cmd → result string;
  cmd_Run : Trace → Cmd → option runError
}.

(** ** Computations that talk to the collaborators

    A computation reads the log so far and returns its value with the
    events it added. *)

Definition IO (A : Type) : Type := Trace → A * Trace.

Definition ret {A} (a : A) : IO A := λ _, (a, []).

Definition bind {A B} (m : IO A) (k : A → IO B) : IO B :=
  λ h, let '(a, e1) := m h in
       let '(b, e2) := k a (h ++ e1) in
       (b, e1 ++ e2).

(** Ask a collaborator and log the call with its answer. *)
Definition call {A} (answer : Trace → A) (ev : A → Event) : IO A :=
  λ h, let a := answer h in (a, [ev a]).

Definition emit (ev : Event) : IO unit := λ _, (tt, [ev]).

Declare Scope io_scope.
Delimit Scope io_scope with io.
Notation "x ← m ; k" := (bind m (λ x, k))
  (at level 20, m at level 100, k at level 200, only parsing) : io_scope.
Notation "' x ← m ; k" := (bind m (λ x, k))
  (at level 20, x pattern, m at level 100, k at level 200, only parsing) : io_scope.
Notation "m ;; k" := (bind m (λ _, k))
  (at level 100, k at level 200, right associativity, only parsing) : io_scope.

(** The byte 0x0A. *)
Definition NL : string := String (ascii_of_nat 10) "".

(** The mode 0755. *)
Definition mode_0755 : Z := 7 * 64 + 5 * 8 + 5.

Section program.

Variable sys : Sys.

Open Scope io_scope.

Definition makeScript : string :=
  if decide (GOOS sys = "plan9") then "make.rc"
  else if decide (GOOS sys = "windows") then "make.bat"
  else "make.bash".

Definition caseInsensitiveEnv : bool := bool_decide (GOOS sys = "windows").

Definition exe : string :=
  if decide (GOOS sys = "windows") then ".exe" else "".

Definition homedir : result string :=
  if decide (GOOS sys = "plan9") then
    let dir := os_Getenv sys "home" in
    if decide (dir ≠ "") then Ok dir
    else Err "can't find user home directory; %USERPROFILE% is empty"
  else if decide (GOOS sys = "windows") then
    let dir := os_Getenv sys "USERPROFILE" in
    if decide (dir ≠ "") then Ok dir
    else Err "can't find user home directory; %USERPROFILE% is empty"
  else
    let dir := os_Getenv sys "HOME" in
    if decide (dir ≠ "") then Ok dir
    else
      match user_Current sys with
      | Ok HomeDir =>
          if decide (HomeDir ≠ "") then Ok HomeDir
          else Err "can't find user home directory; $HOME is empty"
      | Err _ => Err "can't find user home directory; $HOME is empty"
      end.

Definition goroot (version : string) : result string :=
  match homedir with
  | Err err => Err ("failed to get home directory: " +:+ err)
  | Ok home => Ok (filepath_Join sys [home; "sdk"; version])
  end.

Definition fetch (a b : string) : IO (result File) :=
  emit (EvPrintf ("Fetching %q" +:+ NL) [a]);;
  err ← call (λ h, os_Create sys h b) (EvCreate b);
  match err with
  | Some err => ret (Err err)
  | None =>
      let f := {| Name := b; data := ""; offset := 0 |} in
      r ← call (λ h, http_Get sys h a) (EvGet a);
      match r with
      | Err err => ret (Err err)
      | Ok fResp =>
          err ← call (λ h, io_Copy sys h b (Body fResp)) (EvCopy b (Body fResp));
          match err with
          | Some err => emit (EvBodyClose a);; ret (Err err)
          | None =>
              let f := {| Name := b; data := Body fResp;
                          offset := String.length (Body fResp) |} in
              err ← call (λ h, file_Seek sys h f) (EvSeek f);
              match err with
              | Some err => emit (EvBodyClose a);; ret (Err err)
              | None => emit (EvBodyClose a);; ret (Ok (rewind f))
              end
          end
      end
  end.

(** Lines 164 to 174 of [fetchify]: the signature check and the rewind of
    the archive.  Returns the error, if any, with the two files as they
    stand when the function goes on to [Untar]. *)
Definition fetchify_verify (kr : KeyRing sys) (tbz sig : File)
    : IO (option error * File * File) :=
  let '(err, n_tbz, n_sig) :=
    openpgp_CheckArmoredDetachedSignature sys kr (unread tbz) (unread sig) in
  let tbz := advance tbz n_tbz in
  let sig := advance sig n_sig in
  emit (EvCheckSignature tbz sig err);;
  match err with
  | Some err => ret (Some err, tbz, sig)
  | None =>
      emit (EvPrintln "Signature OK.");;
      err ← call (λ h, file_Seek sys h tbz) (EvSeek tbz);
      match err with
      | Some err => ret (Some err, tbz, sig)
      | None => ret (None, rewind tbz, sig)
      end
  end.

Definition fetchify (goURL fp : string) : IO (option error) :=
  let r := openpgp_ReadArmoredKeyRing sys (pubKey sys) in
  emit (EvReadKeyRing (match r with Ok _ => None | Err err => Some err end));;
  match r with
  | Err err => ret (Some err)
  | Ok kr =>
      r ← fetch goURL fp;
      match r with
      | Err err => ret (Some err)
      | Ok tbz =>
          r ← fetch (goURL +:+ ".asc") (fp +:+ ".asc");
          match r with
          | Err err => ret (Some err)
          | Ok sig =>
              (* the two deferred Close calls run last, sig first *)
              '(err, tbz, sig) ← fetchify_verify kr tbz sig;
              err ← match err with
                    | Some err => ret (Some err)
                    | None =>
                        call (λ h, Untar sys h tbz (path_Dir sys fp))
                             (EvUntar tbz (path_Dir sys fp))
                    end;
              emit (EvClose sig);; emit (EvClose tbz);; ret err
          end
      end
  end.

(** The second half of [installVer]: run the make script. *)
Definition build (root version : string) : IO (option error) :=
  let cmd := Command
    (filepath_Join sys [root; version; "go"; "src"; makeScript]) [] in
  let cmd := {| Path := Path cmd; Args := Args cmd;
                Dir := filepath_Join sys [root; version; "go"; "src"];
                Env := Env cmd; Stdin := Stdin cmd;
                Stdout := true; Stderr := true |} in
  r ← (if decide (GOOS sys = "windows") then
         let c := Command "go" ["env"; "GOROOT"] in
         r ← call (λ h, cmd_Output sys h c) (EvOutput c);
         match r with
         | Err err =>
             ret (Err ("failed to detect an existing go installation for bootstrap: "
                       +:+ err))
         | Ok goroot =>
             ret (Ok {| Path := Path cmd; Args := Args cmd; Dir := Dir cmd;
                        Env := Some (os_Environ sys ++
                                 ["GOROOT_BOOTSTRAP=" +:+ strings_TrimSpace sys goroot]);
                        Stdin := Stdin cmd; Stdout := Stdout cmd;
                        Stderr := Stderr cmd |})
         end
       else ret (Ok cmd));
  match r with
  | Err err => ret (Some err)
  | Ok cmd =>
      err ← call (λ h, cmd_Run sys h cmd) (EvRun cmd);
      match err with
      | Some err => ret (Some ("failed to build go: " +:+ runError_msg err))
      | None => ret None
      end
  end.

Definition installVer (root version : string) : IO (option error) :=
  let goURL := "https://dl.google.com/go/go" +:+ version +:+ ".src.tar.gz" in
  let goFP := filepath_Join sys
                [root; version; "go" +:+ version +:+ ".src.tar.gz"] in
  let name := filepath_Join sys [root; version; "go"] in
  err ← call (λ h, os_Stat sys h name) (EvStat name);
  err ← match err with
        | Some _ =>
            let dir := filepath_Join sys [root; version] in
            err ← call (λ h, os_MkdirAll sys h dir mode_0755)
                       (EvMkdirAll dir mode_0755);
            match err with
            | Some err =>
                ret (Some ("failed to create source directory: " +:+ err))
            | None =>
                err ← fetchify goURL goFP;
                match err with
                | Some err => ret (Some ("failed to verify: " +:+ err))
                | None => ret None
                end
            end
        | None => ret None
        end;
  match err with
  | Some err => ret (Some err)
  | None => build root version
  end.

(** [log.Fatalf]: the message goes to the log and the process exits
    with status 1. *)
Definition Fatalf (msg : string) : IO Z := emit (EvLog msg);; ret 1%Z.

Fixpoint printNames (entries : list string) : IO unit :=
  match entries with
  | [] => ret tt
  | entry :: entries => emit (EvPrintln entry);; printNames entries
  end.

(** [main], to the exit status of the process. *)
Definition main : IO Z :=
  match goroot "gover" with
  | Err err => Fatalf ("gover: " +:+ err)
  | Ok root =>
      err ← call (λ h, os_MkdirAll sys h root mode_0755) (EvMkdirAll root mode_0755);
      match err with
      | Some err =>
          Fatalf ("failed to create gover directory: " +:+ err +:+ NL)
      | None =>
          emit (EvPledge
            "stdio tty unveil rpath cpath wpath proc dns inet fattr exec");;
          emit (EvUnveil "/etc" "r");;
          emit (EvUnveil root "rwxc");;
          emit EvUnveilBlock;;
          match os_Args sys with
          | [] => emit (EvPanic "index out of range [1] with length 0");; ret 2%Z
          | [_] => Fatalf "gover: usage: gover [download|version|list]"
          | _ :: arg1 :: rest =>
              if decide (arg1 = "download") then
                match rest with
                | [version] =>
                    err ← installVer root version;
                    match err with
                    | Some err => Fatalf ("gover: " +:+ err)
                    | None =>
                        emit (EvLog ("Success. You may now run 'gover "
                                     +:+ version +:+ "'!"));;
                        ret 0%Z
                    end
                | _ => Fatalf "gover: usage: gover download [version]"
                end
              else if decide (arg1 = "list") then
                r ← call (λ h, os_ReadDir sys h root) (EvReadDir root);
                match r with
                | Err err => Fatalf err
                | Ok entries => printNames entries;; ret 0%Z
                end
              else
                let version := arg1 in
                let gobin := filepath_Join sys
                               [root; version; "go"; "bin"; "go" +:+ exe] in
                let gorootPath := filepath_Join sys [root; version; "go"] in
                err ← call (λ h, os_Stat sys h gobin) (EvStat gobin);
                match err with
                | Some _ =>
                    Fatalf ("gover: not downloaded. Run 'gover download' to install to "
                            +:+ root)
                | None =>
                    let newPath := filepath_Join sys [root; version; "go"; "bin"] in
                    let p := os_Getenv sys "PATH" in
                    let newPath :=
                      if decide (p ≠ "")
                      then newPath +:+ filepath_ListSeparator sys +:+ p
                      else newPath in
                    let cmd := Command gobin rest in
                    let cmd :=
                      {| Path := Path cmd; Args := Args cmd; Dir := Dir cmd;
                         Env := Some (dedupEnv (unicode_ToLower sys) caseInsensitiveEnv
                                  (os_Environ sys ++
                                   ["GOROOT=" +:+ gorootPath; "PATH=" +:+ newPath]));
                         Stdin := true; Stdout := true; Stderr := true |} in
                    err ← call (λ h, cmd_Run sys h cmd) (EvRun cmd);
                    match err with
                    | Some (ExitError _) => ret 1%Z
                    | Some (OtherError err) =>
                        Fatalf ("gover: failed to execute " +:+ gobin
                                +:+ ": " +:+ err)
                    | None => ret 0%Z
                    end
                end
          end
      end
  end.

End program.

(** ** Vocabulary for the statements *)

(** The events a [fetch] can add to the log. *)
Definition fetchEvent (ev : Event) : Prop :=
  match ev with
  | EvPrintf _ _ | EvCreate _ _ | EvGet _ _ | EvCopy _ _ _
  | EvBodyClose _ | EvSeek _ _ => True
  | _ => False
  end.

(** The events the build step can add to the log. *)
Definition buildEvent (ev : Event) : Prop :=
  match ev with
  | EvOutput _ _ | EvRun _ _ => True
  | _ => False
  end.

(** The signature verification failed with [e]: the trusted key did not
    parse, or the check of the detached signature returned an error (a
    signature that does not parse, or one that does not match). *)
Definition verificationFailed (evs : Trace) (e : error) : Prop :=
  EvReadKeyRing (Some e) ∈ evs ∨
  ∃ tbz sig, EvCheckSignature tbz sig (Some e) ∈ evs.

(** The archive was handed to [Untar]. *)
Definition extracted (evs : Trace) : Prop :=
  ∃ f dir r, EvUntar f dir r ∈ evs.

(** A status code in the 2xx class. *)
Definition is2xx (resp : Response) : Prop :=
  (200 ≤ StatusCode resp < 300)%Z.

(** The variable that names the home directory on the platform. *)
Definition homeVar (sys : Sys) : string :=
  if decide (GOOS sys = "plan9") then "home"
  else if decide (GOOS sys = "windows") then "USERPROFILE"
  else "HOME".

(** The default platform family: neither plan9 nor windows. *)
Definition defaultFamily (sys : Sys) : Prop :=
  GOOS sys ≠ "plan9" ∧ GOOS sys ≠ "windows".

(** [filepath.IsAbs] on Unix. *)
Definition unix_IsAbs (path : string) : bool :=
  match path with
  | String "/" _ => true
  | _ => false
  end.

(** The permission bits of group and others, 0077, and the write bits
    of group and others, 0022. *)
Definition mask_0077 : Z := 7 * 8 + 7.
Definition mask_0022 : Z := 2 * 8 + 2.

(** ** Concrete collaborators, to run the program on *)

(** [filepath.Join] on Unix for elements that are non-empty and clean. *)
Definition joinSlash (elem : list string) : string :=
  match elem with
  | [] => ""
  | e :: es => fold_left (λ acc x, acc +:+ "/" +:+ x) es e
  end.

(** The directory part of a path that holds a slash. *)
Fixpoint dirSlash (s : string) : option string :=
  match s with
  | EmptyString => None
  | String a s' =>
      match dirSlash s' with
      | Some d => Some (String a d)
      | None => if Ascii.eqb a "/" then Some "" else None
      end
  end.

(** [path.Dir] for a clean path below the root. *)
Definition pathDir (s : string) : string := default "." (dirSlash s).

(** A checker that reads both files to the end. *)
Definition readAll (verdict : option error) (signed sig : string)
    : option error * nat * nat :=
  (verdict, String.length signed, String.length sig).

(** A Unix-like system, given by the platform name, the environment
    lookup, the arguments, and the answers of [os.Stat], [http.Get], the
    signature check and [cmd.Run]. *)
Definition unixSys (goos : string) (getenv : string → string)
    (args : list string) (stat : string → option error)
    (get : string → result Response) (verdict : option error)
    (run : option runError) : Sys :=
  {| KeyRing := unit;
     GOOS := goos;
     pubKey := "-----BEGIN PGP PUBLIC KEY BLOCK-----";
     os_Args := args;
     os_Environ := ["HOME=" +:+ getenv "HOME"; "PATH=" +:+ getenv "PATH"];
     os_Getenv := getenv;
     user_Current := Err "user: Current not implemented";
     unicode_ToLower := id;
     strings_TrimSpace := id;
     filepath_Join := joinSlash;
     filepath_ListSeparator := ":";
     path_Dir := pathDir;
     os_Stat := λ _, stat;
     os_MkdirAll := λ _ _ _, None;
     os_Create := λ _ _, None;
     os_ReadDir := λ _ _, Ok [];
     http_Get := λ _, get;
     io_Copy := λ _ _ _, None;
     file_Seek := λ _ _, None;
     openpgp_ReadArmoredKeyRing := λ _, Ok tt;
     openpgp_CheckArmoredDetachedSignature := λ _, readAll verdict;
     Untar := λ _ _ _, None;
     cmd_Output := λ _ _, Ok "/usr/local/go";
     cmd_Run := λ _ _, run |}.

Definition homeIs (dir : string) (name : string) : string :=
  if decide (name = "HOME") then dir else "".

Definition notExist : option error := Some "no such file or directory".

Definition serve (status : Z) (body : string) (url : string) : result Response :=
  Ok {| StatusCode := status; Body := body |}.

(** A fresh machine: nothing installed, the server answers 200, the
    signature is good, the build succeeds. *)
Definition sysFresh : Sys :=
  unixSys "linux" (homeIs "/home/gopher") ["gover"; "download"; "1.21.0"]
    (λ _, notExist) (serve 200 "bytes") None None.

(** The same, with a signature that does not match. *)
Definition sysBadSig : Sys :=
  unixSys "linux" (homeIs "/home/gopher") ["gover"; "download"; "1.21.0"]
    (λ _, notExist) (serve 200 "bytes")
    (Some "openpgp: invalid signature: hash tag doesn't match") None.

(** The version is unpacked already, and its build fails. *)
Definition sysUnpacked : Sys :=
  unixSys "linux" (homeIs "/home/gopher") ["gover"; "download"; "1.21.0"]
    (λ _, None) (serve 200 "bytes") None (Some (ExitError "exit status 2")).

(** The server answers 404 with an error page. *)
Definition sys404 : Sys :=
  unixSys "linux" (homeIs "/home/gopher") ["gover"; "download"; "0.0.0"]
    (λ _, notExist) (serve 404 "404 page not found") None None.

(** HOME holds a relative path. *)
Definition sysRelHome : Sys :=
  unixSys "linux" (homeIs "tmp") ["gover"; "download"; "1.21.0"]
    (λ _, notExist) (serve 200 "bytes") None None.

Arguments fetch : simpl never.
Arguments fetchify_verify : simpl never.
Arguments fetchify : simpl never.
Arguments build : simpl never.
Arguments installVer : simpl never.

(** ** More vocabulary *)

(** The keyed entries of a list have pairwise distinct keys. *)
Definition distinctKeys (lower : string → string) (caseInsensitive : bool)
    (l : list string) : Prop :=
  ∀ i j a b k,
    l !! i = Some a → l !! j = Some b →
    envKey lower caseInsensitive a = Some k →
    envKey lower caseInsensitive b = Some k → i = j.

(** The events [installVer] can add to the log: everything but what
    only [main] does (the log lines, the sandbox, the directory
    listing). *)
Definition installEvent (ev : Event) : Prop :=
  match ev with
  | EvLog _ | EvPledge _ | EvUnveil _ _ | EvUnveilBlock | EvReadDir _ _
  | EvPanic _ => False
  | _ => True
  end.

(** The declaration of the sandbox. *)
Definition sandboxEvent (ev : Event) : Prop :=
  match ev with
  | EvPledge _ | EvUnveil _ _ | EvUnveilBlock => True
  | _ => False
  end.

(** The four calls with which [main] declares the sandbox. *)
Definition sandbox (root : string) : Trace :=
  [EvPledge "stdio tty unveil rpath cpath wpath proc dns inet fattr exec";
   EvUnveil "/etc" "r"; EvUnveil root "rwxc"; EvUnveilBlock].

(** The two URLs and the two local files of a version. *)
Definition archiveURL (version : string) : string :=
  "https://dl.google.com/go/go" +:+ version +:+ ".src.tar.gz".

Definition archiveFile (sys : Sys) (root version : string) : string :=
  filepath_Join sys [root; version; "go" +:+ version +:+ ".src.tar.gz"].



(** A machine on which version 1.21.0 is built, asked to run it. *)
Definition sysLaunch : Sys :=
  unixSys "linux" (λ name, if decide (name = "HOME") then "/home/gopher"
                           else if decide (name = "PATH") then "/usr/bin"
                           else "")
    ["gover"; "1.21.0"; "version"]
    (λ _, None) (serve 200 "bytes") None None.

(** The same machine, asked for the list of versions. *)
Definition sysList : Sys :=
  unixSys "linux" (homeIs "/home/gopher") ["gover"; "list"; "extra"]
    (λ _, None) (serve 200 "bytes") None None.

(** A machine with nothing installed, asked to run a version. *)
Definition sysNotInstalled : Sys :=
  unixSys "linux" (homeIs "/home/gopher") ["gover"; "1.21.0"; "build"]
    (λ _, notExist) (serve 200 "bytes") None None.

(** A machine asked to download without naming a version. *)
Definition sysNoVersion : Sys :=
  unixSys "linux" (homeIs "/home/gopher") ["gover"; "download"]
    (λ _, notExist) (serve 200 "bytes") None None.

(** A machine without a home directory. *)
Definition sysHomeless : Sys :=
  unixSys "linux" (homeIs "") ["gover"; "list"]
    (λ _, None) (serve 200 "bytes") None None.


(** The events [fetchify] can add to the log. *)
Definition fetchifyEvent (ev : Event) : Prop :=
  match ev with
  | EvPrintf _ _ | EvCreate _ _ | EvGet _ _ | EvCopy _ _ _
  | EvBodyClose _ | EvSeek _ _
  | EvReadKeyRing _ | EvCheckSignature _ _ _ | EvPrintln _
  | EvUntar _ _ _ | EvClose _ => True
  | _ => False
  end.

(** The binary of a version, its root, and the search path [main] gives
    the launched binary. *)
Definition gobinOf (sys : Sys) (root version : string) : string :=
  filepath_Join sys [root; version; "go"; "bin"; "go" +:+ exe sys].

Definition gorootOf (sys : Sys) (root version : string) : string :=
  filepath_Join sys [root; version; "go"].

Definition launchPath (sys : Sys) (root version : string) : string :=
  if decide (os_Getenv sys "PATH" ≠ "")
  then filepath_Join sys [root; version; "go"; "bin"]
       +:+ filepath_ListSeparator sys +:+ os_Getenv sys "PATH"
  else filepath_Join sys [root; version; "go"; "bin"].

(** The environment [main] composes for the launched binary. *)
Definition launchEnv (sys : Sys) (root version : string) : list string :=
  dedupEnv (unicode_ToLower sys) (caseInsensitiveEnv sys)
    (os_Environ sys ++
     ["GOROOT=" +:+ gorootOf sys root version;
      "PATH=" +:+ launchPath sys root version]).

(** The command [main] runs to launch a version. *)
Definition launchCmd (sys : Sys) (root version : string) (args : list string)
    : Cmd :=
  {| Path := gobinOf sys root version;
     Args := gobinOf sys root version :: args;
     Dir := "";
     Env := Some (launchEnv sys root version);
     Stdin := true; Stdout := true; Stderr := true |}.

(** What [main] has logged when it comes to look at its arguments. *)
Definition started (root : string) : Trace :=
  EvMkdirAll root mode_0755 None :: sandbox root.

(** A system in which the creation of directories, the parsing of the
    key and the extraction give the answers named, and everything else
    is as in [sys]. *)
Definition withAnswers (sys : Sys) (mkdir : option error)
    (key : option error) (untar : option error) : Sys :=
  {| KeyRing := KeyRing sys;
     GOOS := GOOS sys;
     pubKey := pubKey sys;
     os_Args := os_Args sys;
     os_Environ := os_Environ sys;
     os_Getenv := os_Getenv sys;
     user_Current := user_Current sys;
     unicode_ToLower := unicode_ToLower sys;
     strings_TrimSpace := strings_TrimSpace sys;
     filepath_Join := filepath_Join sys;
     filepath_ListSeparator := filepath_ListSeparator sys;
     path_Dir := path_Dir sys;
     os_Stat := os_Stat sys;
     os_MkdirAll := λ _ _ _, mkdir;
     os_Create := os_Create sys;
     os_ReadDir := os_ReadDir sys;
     http_Get := http_Get sys;
     io_Copy := io_Copy sys;
     file_Seek := file_Seek sys;
     openpgp_ReadArmoredKeyRing :=
       λ armored, match key with
                  | Some e => Err e
                  | None => openpgp_ReadArmoredKeyRing sys armored
                  end;
     openpgp_CheckArmoredDetachedSignature :=
       openpgp_CheckArmoredDetachedSignature sys;
     Untar := λ _ _ _, untar;
     cmd_Output := cmd_Output sys;
     cmd_Run := cmd_Run sys |}.

(** The embedded key does not parse. *)
Definition sysBadKey : Sys :=
  withAnswers sysFresh None
    (Some "openpgp: invalid argument: no armored data found") None.

(** The directory of the version cannot be created. *)
Definition sysReadOnly : Sys :=
  withAnswers sysFresh (Some "mkdir: read-only file system") None None.

(** The archive does not unpack. *)
Definition sysBadArchive : Sys :=
  withAnswers sysFresh None None (Some "gzip: invalid header").

(** The root and the version the examples use. *)
Definition gopherRoot : string := "/home/gopher/sdk/gover".
Definition go121 : string := "1.21.0".
(** ** Properties of [dedupEnv] *)

Section dedup_facts.

Variable unicodeLower : string → string.
Variable c : bool.

Abbreviation key := (envKey unicodeLower c).
Abbreviation loop := (dedupLoop unicodeLower c).
Abbreviation dedup := (dedupEnv unicodeLower c).
Abbreviation withKey := (withKey unicodeLower c).
Abbreviation firstIndex := (firstIndex unicodeLower c).
Abbreviation saw_ok := (saw_ok unicodeLower c).

Lemma saw_ok_init : saw_ok ([], ∅).
Proof. split; simpl; intros *; [rewrite lookup_empty | rewrite lookup_nil]; done. Qed.

Lemma saw_ok_step st kv : saw_ok st → saw_ok (dedupStep unicodeLower c st kv).
Proof.
  destruct st as [out saw]. intros [S1 S2]. unfold dedupStep. simpl in *.
  destruct (key kv) as [k|] eqn:Hk.
  - destruct (saw !! k) as [d|] eqn:Hd.
    + destruct (S1 _ _ Hd) as (old & Hold & Hkold).
      pose proof (lookup_lt_Some _ _ _ Hold) as Hlt.
      split; simpl.
      * intros k' i Hi. destruct (decide (i = d)) as [->|Hne].
        -- destruct (S1 _ _ Hi) as (e & He & Hke). simplify_eq.
           exists kv. by rewrite list_lookup_insert_eq.
        -- rewrite list_lookup_insert_ne by done. eauto.
      * intros i e k' Hi Hke. destruct (decide (i = d)) as [->|Hne].
        -- rewrite list_lookup_insert_eq in Hi by done. by simplify_eq.
        -- rewrite list_lookup_insert_ne in Hi by done. eauto.
    + split; simpl.
      * intros k' i Hi. destruct (decide (k' = k)) as [->|Hne].
        -- rewrite lookup_insert_eq in Hi. simplify_eq.
           exists kv. split; [|done].
           rewrite lookup_app_r by done. by rewrite Nat.sub_diag.
        -- rewrite lookup_insert_ne in Hi by done.
           destruct (S1 _ _ Hi) as (e & He & Hke). exists e. split; [|done].
           by apply lookup_app_l_Some.
      * intros i e k' Hi Hke. apply lookup_app_Some in Hi as [Hi|[Hge Hi]].
        -- pose proof (S2 _ _ _ Hi Hke) as Hs.
           rewrite lookup_insert_ne; [done|]. intros ->. congruence.
        -- apply list_lookup_singleton_Some in Hi as [Hz ->].
           assert (i = length out) as -> by lia. simplify_eq.
           apply lookup_insert_eq.
  - split; simpl.
    + intros k' i Hi. destruct (S1 _ _ Hi) as (e & He & Hke).
      exists e. split; [|done]. by apply lookup_app_l_Some.
    + intros i e k' Hi Hke. apply lookup_app_Some in Hi as [Hi|[Hge Hi]].
      * eauto.
      * apply list_lookup_singleton_Some in Hi as [_ ->]. congruence.
Qed.

Lemma saw_ok_loop env st : saw_ok st → saw_ok (loop env st).
Proof.
  revert st. induction env as [|kv env IH]; intros st Hst; [done|].
  simpl. apply IH. by apply saw_ok_step.
Qed.

Lemma saw_ok_reach env : saw_ok (loop env ([], ∅)).
Proof. apply saw_ok_loop, saw_ok_init. Qed.

(** No two keyed entries of the result share a key. *)
Lemma dedup_key_unique env i j a b k :
  dedup env !! i = Some a → dedup env !! j = Some b →
  key a = Some k → key b = Some k → i = j.
Proof.
  unfold dedupEnv. destruct (saw_ok_reach env) as [_ S2].
  intros Ha Hb Hka Hkb.
  pose proof (S2 _ _ _ Ha Hka). pose proof (S2 _ _ _ Hb Hkb). congruence.
Qed.

(** What appending one entry to the input does to the result. *)
Lemma dedup_snoc env kv :
  (key kv = None ∧ dedup (env ++ [kv]) = dedup env ++ [kv]) ∨
  (∃ k, key kv = Some k ∧ (∀ e, e ∈ dedup env → key e ≠ Some k) ∧
        dedup (env ++ [kv]) = dedup env ++ [kv]) ∨
  (∃ k i old, key kv = Some k ∧ dedup env !! i = Some old ∧ key old = Some k ∧
        dedup (env ++ [kv]) = <[i := kv]> (dedup env)).
Proof.
  unfold dedupEnv, dedupLoop. rewrite fold_left_app. simpl.
  pose proof (saw_ok_reach env) as [S1 S2]. unfold dedupLoop in *.
  destruct (fold_left _ env _) as [out saw]. simpl in *.
  destruct (key kv) as [k|] eqn:Hk; [|by left].
  right. destruct (saw !! k) as [d|] eqn:Hd.
  - right. destruct (S1 _ _ Hd) as (old & Hold & Hkold).
    exists k, d, old. done.
  - left. exists k. split_and!; [done| |done].
    intros e [i Hi]%list_elem_of_lookup Hke.
    pose proof (S2 _ _ _ Hi Hke). congruence.
Qed.

Lemma withKey_snoc k l kv :
  withKey k (l ++ [kv]) =
  withKey k l ++ (if decide (key kv = Some k) then [kv] else []).
Proof.
  unfold withKey. rewrite filter_app. f_equal.
Qed.

(** Every keyed entry of the result is the last input entry with its key. *)
Lemma dedup_last_wins env i e k :
  dedup env !! i = Some e → key e = Some k → last (withKey k env) = Some e.
Proof.
  revert i e k. induction env as [|kv env IH] using rev_ind; intros i e k.
  { unfold dedupEnv. simpl. by rewrite lookup_nil. }
  rewrite withKey_snoc.
  destruct (dedup_snoc env kv) as
    [[Hn ->]|[(k0 & Hk0 & Hfresh & ->)|(k0 & i0 & old & Hk0 & Hold & Hkold & ->)]].
  - intros [Hi|[_ Hi]]%lookup_app_Some Hke.
    + rewrite decide_False by congruence. rewrite app_nil_r. eauto.
    + apply list_lookup_singleton_Some in Hi as [_ ->]. congruence.
  - intros [Hi|[_ Hi]]%lookup_app_Some Hke.
    + rewrite decide_False; [rewrite app_nil_r; eauto|].
      intros ?. apply (Hfresh e); [by eapply list_elem_of_lookup_2|congruence].
    + apply list_lookup_singleton_Some in Hi as [_ ->].
      rewrite decide_True by done. by rewrite last_snoc.
  - intros Hi Hke. destruct (decide (i = i0)) as [->|Hne].
    + rewrite list_lookup_insert_eq in Hi by (by eapply lookup_lt_Some).
      simplify_eq. rewrite decide_True by done. by rewrite last_snoc.
    + rewrite list_lookup_insert_ne in Hi by done.
      rewrite decide_False; [rewrite app_nil_r; eauto|].
      intros ?. apply Hne. eapply dedup_key_unique; eauto. congruence.
Qed.

(** Every key of the input has an entry in the result. *)
Lemma dedup_key_kept env e k :
  e ∈ env → key e = Some k →
  ∃ i e', dedup env !! i = Some e' ∧ key e' = Some k.
Proof.
  revert e k. induction env as [|kv env IH] using rev_ind; intros e k.
  { by intros ?%elem_of_nil. }
  intros Hin Hke.
  assert (key kv = Some k ∨ (key kv ≠ Some k ∧ e ∈ env)) as Hcase.
  { apply elem_of_app in Hin as [?|Hs].
    - destruct (decide (key kv = Some k)); [by left|by right].
    - apply list_elem_of_singleton in Hs as ->. by left. }
  destruct (dedup_snoc env kv) as
    [[Hn ->]|[(k0 & Hk0 & Hfresh & ->)|(k0 & i0 & old & Hk0 & Hold & Hkold & ->)]].
  - destruct Hcase as [?|[_ He]]; [congruence|].
    destruct (IH _ _ He Hke) as (i & e' & Hi & Hke'). exists i, e'.
    split; [by apply lookup_app_l_Some|done].
  - destruct Hcase as [?|[_ He]].
    + exists (length (dedup env)), kv. split; [|done].
      rewrite lookup_app_r by done. by rewrite Nat.sub_diag.
    + destruct (IH _ _ He Hke) as (i & e' & Hi & Hke'). exists i, e'.
      split; [by apply lookup_app_l_Some|done].
  - pose proof (lookup_lt_Some _ _ _ Hold) as Hlt.
    destruct Hcase as [?|[Hnk He]].
    + exists i0, kv. split; [by rewrite list_lookup_insert_eq|done].
    + destruct (IH _ _ He Hke) as (i & e' & Hi & Hke'). exists i, e'.
      split; [|done]. rewrite list_lookup_insert_ne; [done|].
      intros ->. congruence.
Qed.

(** Overwriting is in place: an entry whose key is already in the result
    replaces the entry at that index and moves nothing. *)
Lemma dedup_snoc_seen env kv k i old :
  key kv = Some k → dedup env !! i = Some old → key old = Some k →
  dedup (env ++ [kv]) = <[i := kv]> (dedup env).
Proof.
  intros Hk Hold Hkold.
  destruct (dedup_snoc env kv) as
    [[Hn _]|[(k0 & Hk0 & Hfresh & _)|(k0 & i0 & old0 & Hk0 & Hold0 & Hkold0 & ->)]].
  - congruence.
  - exfalso. apply (Hfresh old); [by eapply list_elem_of_lookup_2|congruence].
  - f_equal. eapply dedup_key_unique; eauto. congruence.
Qed.

(** A slot of the result keeps its key for the rest of the scan, and a
    slot holding a copied-through entry keeps the entry itself. *)
Lemma dedup_slot_stable pre post i e :
  dedup pre !! i = Some e →
  ∃ e', dedup (pre ++ post) !! i = Some e' ∧ key e' = key e ∧
        (key e = None → e' = e).
Proof.
  intros Hi. induction post as [|kv post IH] using rev_ind.
  { rewrite app_nil_r. eauto. }
  destruct IH as (e1 & H1 & Hk1 & Hn1). rewrite app_assoc.
  destruct (dedup_snoc (pre ++ post) kv) as
    [[Hn ->]|[(k0 & Hk0 & Hfresh & ->)|(k0 & i0 & old & Hk0 & Hold & Hkold & ->)]].
  - exists e1. split; [by apply lookup_app_l_Some|done].
  - exists e1. split; [by apply lookup_app_l_Some|done].
  - destruct (decide (i = i0)) as [->|Hne].
    + exists kv. rewrite list_lookup_insert_eq by (by eapply lookup_lt_Some).
      simplify_eq. split_and!; [done|congruence|congruence].
    + exists e1. by rewrite list_lookup_insert_ne.
Qed.

(** A list whose keyed entries have distinct keys is left as it is. *)
Lemma dedup_fixed l :
  (∀ i j a b k, l !! i = Some a → l !! j = Some b →
                key a = Some k → key b = Some k → i = j) →
  dedup l = l.
Proof.
  induction l as [|kv l IH] using rev_ind; intros Huniq; [done|].
  assert (dedup l = l) as Hl.
  { apply IH. intros i j a b k Ha Hb. apply Huniq; by apply lookup_app_l_Some. }
  destruct (dedup_snoc l kv) as
    [[Hn ->]|[(k0 & Hk0 & Hfresh & ->)|(k0 & i0 & old & Hk0 & Hold & Hkold & _)]].
  - by rewrite Hl.
  - by rewrite Hl.
  - exfalso. rewrite Hl in Hold.
    pose proof (lookup_lt_Some _ _ _ Hold) as Hlt.
    assert (i0 = length l); [|lia].
    eapply (Huniq i0 (length l) old kv k0); [by apply lookup_app_l_Some| |done..].
    rewrite lookup_app_r by done. by rewrite Nat.sub_diag.
Qed.

Lemma dedup_idem env : dedup (dedup env) = dedup env.
Proof. apply dedup_fixed. intros *. apply dedup_key_unique. Qed.

Lemma firstIndex_lt k l a : firstIndex k l = Some a → a < length l.
Proof.
  unfold firstIndex. destruct (list_find _ l) as [[i x]|] eqn:Hf; [|done].
  intros [= <-]. apply list_find_Some in Hf as (Hi & _). by eapply lookup_lt_Some.
Qed.

Lemma firstIndex_app_l k l1 l2 a :
  firstIndex k l1 = Some a → firstIndex k (l1 ++ l2) = Some a.
Proof.
  unfold firstIndex. destruct (list_find _ l1) as [[i x]|] eqn:Hf; [|done].
  intros [= <-]. by rewrite (list_find_app_l _ _ _ _ _ Hf).
Qed.

Lemma firstIndex_None k l :
  firstIndex k l = None ↔ ∀ e, e ∈ l → key e ≠ Some k.
Proof.
  unfold firstIndex. rewrite fmap_None, list_find_None, Forall_forall. done.
Qed.

Lemma firstIndex_snoc_new k l kv :
  firstIndex k l = None → key kv = Some k →
  firstIndex k (l ++ [kv]) = Some (length l).
Proof.
  unfold firstIndex. intros Hn%fmap_None Hk.
  rewrite (list_find_app_r _ _ _ Hn). simpl.
  rewrite decide_True by done. done.
Qed.

(** A keyed entry of the result has its key in the input. *)
Lemma dedup_key_from_input env i e k :
  dedup env !! i = Some e → key e = Some k → is_Some (firstIndex k env).
Proof.
  intros Hi Hk. pose proof (dedup_last_wins _ _ _ _ Hi Hk) as Hl.
  destruct (firstIndex k env) eqn:Hf; [done|].
  rewrite firstIndex_None in Hf. exfalso.
  assert (e ∈ withKey k env) as [_ Hin]%list_elem_of_filter.
  { apply last_Some in Hl as [l' ->]. set_solver. }
  by apply (Hf e).
Qed.

Lemma dedup_key_absent env k :
  (∀ e, e ∈ dedup env → key e ≠ Some k) → firstIndex k env = None.
Proof.
  intros Hfresh. apply firstIndex_None. intros e He Hk.
  destruct (dedup_key_kept _ _ _ He Hk) as (i & e' & Hi & Hk').
  apply (Hfresh e'); [by eapply list_elem_of_lookup_2|done].
Qed.

(** The keyed entries of the result stand in the order in which their
    keys first occur in the input. *)
Lemma dedup_first_order env i j ei ej ki kj :
  dedup env !! i = Some ei → dedup env !! j = Some ej →
  key ei = Some ki → key ej = Some kj → i < j →
  ∃ a b, firstIndex ki env = Some a ∧ firstIndex kj env = Some b ∧ a < b.
Proof.
  revert i j ei ej ki kj.
  induction env as [|kv env IH] using rev_ind; intros i j ei ej ki kj.
  { unfold dedupEnv. simpl. by rewrite lookup_nil. }
  assert (∀ i j ei ej, dedup env !! i = Some ei → dedup env !! j = Some ej →
            key ei = Some ki → key ej = Some kj → i < j →
            ∃ a b, firstIndex ki (env ++ [kv]) = Some a ∧
                   firstIndex kj (env ++ [kv]) = Some b ∧ a < b) as IH'.
  { intros i' j' ei' ej' H1 H2 H3 H4 H5.
    destruct (IH _ _ _ _ _ _ H1 H2 H3 H4 H5) as (a & b & Ha & Hb & Hab).
    exists a, b. split_and!; [by apply firstIndex_app_l..|done]. }
  assert (∀ ei, dedup env !! i = Some ei → key ei = Some ki →
            key kv = Some kj → (∀ e, e ∈ dedup env → key e ≠ Some kj) →
            ∃ a b, firstIndex ki (env ++ [kv]) = Some a ∧
                   firstIndex kj (env ++ [kv]) = Some b ∧ a < b) as Hnew.
  { intros ei' H1 H2 H3 Hfresh.
    destruct (dedup_key_from_input _ _ _ _ H1 H2) as [a Ha].
    exists a, (length env). split_and!.
    - by apply firstIndex_app_l.
    - apply firstIndex_snoc_new; [by apply dedup_key_absent|done].
    - by eapply firstIndex_lt. }
  destruct (dedup_snoc env kv) as
    [[Hn ->]|[(k0 & Hk0 & Hfresh & ->)|(k0 & i0 & old & Hk0 & Hold & Hkold & ->)]].
  - intros [Hi|[_ Hi]]%lookup_app_Some [Hj|[_ Hj]]%lookup_app_Some Hki Hkj Hlt.
    + eauto.
    + apply list_lookup_singleton_Some in Hj as [_ ->]. congruence.
    + apply list_lookup_singleton_Some in Hi as [_ ->]. congruence.
    + apply list_lookup_singleton_Some in Hi as [_ ->]. congruence.
  - intros [Hi|[Hge Hi]]%lookup_app_Some [Hj|[Hge' Hj]]%lookup_app_Some Hki Hkj Hlt.
    + eauto.
    + apply list_lookup_singleton_Some in Hj as [_ ->].
      assert (kj = k0) as -> by congruence. eauto.
    + apply lookup_lt_Some in Hj. lia.
    + apply list_lookup_singleton_Some in Hi as [? _].
      apply list_lookup_singleton_Some in Hj as [? _]. lia.
  - pose proof (lookup_lt_Some _ _ _ Hold) as Hlt0.
    assert (∀ n e k, <[i0:=kv]> (dedup env) !! n = Some e → key e = Some k →
              ∃ e', dedup env !! n = Some e' ∧ key e' = Some k) as Hback.
    { intros n e k Hn Hk. destruct (decide (n = i0)) as [->|Hne].
      - rewrite list_lookup_insert_eq in Hn by done. simplify_eq.
        exists old. split; [done|congruence].
      - rewrite list_lookup_insert_ne in Hn by done. eauto. }
    intros Hi Hj Hki Hkj Hlt.
    destruct (Hback _ _ _ Hi Hki) as (ei' & Hi' & Hki').
    destruct (Hback _ _ _ Hj Hkj) as (ej' & Hj' & Hkj').
    eauto.
Qed.

(** The order of the keyed entries of the result is the order of the
    first occurrences of their keys, in both directions. *)
Lemma dedup_first_order_iff env i j ei ej ki kj :
  dedup env !! i = Some ei → dedup env !! j = Some ej →
  key ei = Some ki → key ej = Some kj →
  ∃ a b, firstIndex ki env = Some a ∧ firstIndex kj env = Some b ∧
         (i < j ↔ a < b).
Proof.
  intros Hi Hj Hki Hkj.
  destruct (dedup_key_from_input _ _ _ _ Hi Hki) as [a Ha].
  destruct (dedup_key_from_input _ _ _ _ Hj Hkj) as [b Hb].
  exists a, b. split_and!; [done..|]. split.
  - intros Hlt.
    destruct (dedup_first_order _ _ _ _ _ _ _ Hi Hj Hki Hkj Hlt)
      as (a' & b' & Ha' & Hb' & Hab).
    congruence.
  - intros Hab. destruct (Nat.lt_trichotomy i j) as [?|[->|Hgt]]; [done|..].
    + assert (a = b) by congruence. lia.
    + destruct (dedup_first_order _ _ _ _ _ _ _ Hj Hi Hkj Hki Hgt)
        as (b' & a' & Hb' & Ha' & Hba).
      assert (a' = a) by congruence. assert (b' = b) by congruence. lia.
Qed.

Lemma filter_insert_neither {A} (P : A → Prop) `{∀ x, Decision (P x)}
    (l : list A) i old new :
  l !! i = Some old → ¬ P old → ¬ P new →
  filter P (<[i := new]> l) = filter P l.
Proof.
  revert i. induction l as [|x l IH]; intros [|i]; simpl; try done.
  - intros [= ->] Ho Hn. rewrite !filter_cons.
    rewrite decide_False by done. by rewrite decide_False.
  - intros Hi Ho Hn. rewrite !filter_cons. by rewrite IH.
Qed.

(** The copied-through entries of the result are those of the input, in
    the same order and as many times. *)
Lemma dedup_keeps_unkeyed env :
  filter (λ e, key e = None) (dedup env) = filter (λ e, key e = None) env.
Proof.
  induction env as [|kv env IH] using rev_ind; [done|].
  rewrite (filter_app _ env).
  destruct (dedup_snoc env kv) as
    [[Hn ->]|[(k0 & Hk0 & Hfresh & ->)|(k0 & i0 & old & Hk0 & Hold & Hkold & ->)]].
  - by rewrite filter_app, IH.
  - rewrite filter_app, IH. done.
  - rewrite (filter_insert_neither _ _ _ old) by (done || congruence).
    rewrite IH, filter_cons, decide_False by congruence.
    by rewrite filter_nil, app_nil_r.
Qed.

(** A copied-through entry stands right after what the entries before it
    produced, and nothing that follows it in the input touches it. *)
Lemma dedup_unkeyed_position pre kv post :
  key kv = None → dedup (pre ++ kv :: post) !! length (dedup pre) = Some kv.
Proof.
  intros Hn. rewrite (cons_middle kv pre post), app_assoc.
  assert (dedup (pre ++ [kv]) !! length (dedup pre) = Some kv) as Hi.
  { destruct (dedup_snoc pre kv) as
      [[_ ->]|[(k0 & Hk0 & _)|(k0 & i0 & old & Hk0 & _)]]; [|congruence..].
    rewrite lookup_app_r by done. by rewrite Nat.sub_diag. }
  destruct (dedup_slot_stable _ post _ _ Hi) as (e' & He' & _ & Hsame).
  by rewrite He', Hsame.
Qed.

(** The index stored in [saw] is always inside [out]: the assignment
    [out[dupIdx] = kv] cannot panic. *)
Lemma saw_in_range env k dupIdx :
  (loop env ([], ∅)).2 !! k = Some dupIdx →
  dupIdx < length (loop env ([], ∅)).1.
Proof.
  destruct (saw_ok_reach env) as [S1 _]. intros Hd.
  destruct (S1 _ _ Hd) as (e & He & _). by eapply lookup_lt_Some.
Qed.

End dedup_facts.

Section string_facts.

Import strings.

Lemma IndexByte_ge s a : (-1 ≤ IndexByte s a)%Z.
Proof.
  induction s as [|b s IH]; simpl; [lia|].
  destruct (Ascii.eqb b a); [lia|]. destruct (Z.ltb_spec (IndexByte s a) 0); lia.
Qed.

Lemma IndexByte_absent s a :
  IndexByte s a = (-1)%Z ↔ a ∉ list_ascii_of_string s.
Proof.
  induction s as [|b s IH]; simpl.
  - split; [intros _; apply not_elem_of_nil|done].
  - rewrite not_elem_of_cons. destruct (Ascii.eqb_spec b a) as [->|Hne].
    + split; [lia|]. by intros [? _].
    + pose proof (IndexByte_ge s a).
      destruct (Z.ltb_spec (IndexByte s a) 0).
      * split; [|done]. intros _. split; [done|]. apply IH. lia.
      * split; [lia|]. intros [_ Hn%IH]. lia.
Qed.

Lemma IndexByte_zero s a :
  IndexByte s a = 0%Z ↔ ∃ s', s = String a s'.
Proof.
  destruct s as [|b s]; simpl.
  - split; [lia|]. by intros [? ?].
  - destruct (Ascii.eqb_spec b a) as [->|Hne].
    + split; [eauto|done].
    + pose proof (IndexByte_ge s a).
      destruct (Z.ltb_spec (IndexByte s a) 0); (split; [lia|]);
        intros [s' [= ? ?]]; done.
Qed.

(** An entry is copied through exactly when it has no [=] or starts
    with one. *)
Lemma envKey_None unicodeLower c kv :
  envKey unicodeLower c kv = None ↔
  "="%char ∉ list_ascii_of_string kv ∨ ∃ rest, kv = String "=" rest.
Proof.
  unfold envKey, Index. rewrite <- IndexByte_absent, <- IndexByte_zero.
  pose proof (IndexByte_ge kv "=").
  destruct (Z.ltb_spec (IndexByte kv "=") 1); [split; [lia|done]|].
  split; [done|lia].
Qed.

End string_facts.

(** ** Properties of the install pipeline *)

Lemma bind_inv {A B} (m : IO A) (k : A → IO B) h b evs :
  bind m k h = (b, evs) →
  ∃ a e1 e2, m h = (a, e1) ∧ k a (h ++ e1) = (b, e2) ∧ evs = e1 ++ e2.
Proof.
  unfold bind. destruct (m h) as [a e1]. destruct (k a (h ++ e1)) as [b' e2] eqn:Hk.
  intros [= <- <-]. eauto 6.
Qed.

Tactic Notation "io_run" "in" hyp(H) :=
  unfold bind, call, emit, ret in H; simpl in H;
  repeat (case_match; simpl in H); simplify_eq.

(** Split the run of [m] followed by [k]. *)
Tactic Notation "io_bind" "in" hyp(H) "as" ident(a) ident(e) ident(Ha) :=
  let H' := fresh "Hk" in
  apply bind_inv in H as (a & e & ? & Ha & H' & ->); rename H' into H.

Tactic Notation "io_emit" "in" hyp(H) :=
  let u := fresh "u" in let e := fresh "e" in let Hu := fresh "Hu" in
  io_bind in H as u e Hu; unfold emit, call in Hu; simplify_eq.

(** Take apart what is known about the members of a log. *)
Ltac log_inv :=
  repeat match goal with
  | H : _ ∈ [] |- _ => apply elem_of_nil in H; destruct H
  | H : _ ∈ _ :: _ |- _ =>
      apply elem_of_cons in H as [H|H]; [try discriminate H; simplify_eq|]
  | H : _ ∈ _ ++ _ |- _ => apply elem_of_app in H as [H|H]
  | Hf : Forall fetchEvent ?l, Hin : _ ∈ ?l |- _ =>
      apply (proj1 (Forall_forall _ _) Hf) in Hin; simpl in Hin; destruct Hin
  | Hf : Forall buildEvent ?l, Hin : _ ∈ ?l |- _ =>
      apply (proj1 (Forall_forall _ _) Hf) in Hin; simpl in Hin; destruct Hin
  end.

(** Find an event in a log that is written out. *)
Ltac log_find :=
  solve [repeat first [apply list_elem_of_here | apply list_elem_of_further]].

Lemma fetch_not_build ev : fetchEvent ev → ¬ buildEvent ev.
Proof. destruct ev; simpl; tauto. Qed.

Section io_facts.

Variable sys : Sys.

Lemma fetch_events a b h r evs :
  fetch sys a b h = (r, evs) → Forall fetchEvent evs.
Proof.
  unfold fetch. intros H. io_run in H; repeat constructor.
Qed.


Lemma fetchify_outcome goURL fp h err evs :
  fetchify sys goURL fp h = (err, evs) →
  (∀ e, verificationFailed evs e → err = Some e ∧ ¬ extracted evs) ∧
  (∀ f dir r, EvUntar f dir r ∈ evs →
     offset f = 0 ∧
     ∃ tbz sig, EvCheckSignature tbz sig None ∈ evs ∧ EvClose sig ∈ evs) ∧
  Forall (λ ev, ¬ buildEvent ev) evs.
Proof.
  unfold fetchify, verificationFailed, extracted. intros H.
  destruct (openpgp_ReadArmoredKeyRing _ _) as [kr|e0].
  2: { io_run in H. split_and!.
       - intros msg [Hin|(fa & fb & Hin)]; log_inv.
         split; [done|]. intros (fu & du & ru & Hu). log_inv.
       - intros fu du ru Hu. log_inv.
       - repeat constructor; simpl; auto. }
  io_emit in H. io_bind in H as r1 e1 Hf1.
  pose proof (fetch_events _ _ _ _ _ Hf1) as C1.
  pose proof (Forall_impl _ _ _ C1 fetch_not_build) as B1.
  destruct r1 as [tbz|e1'].
  2: { io_run in H. split_and!.
       - intros msg [Hin|(fa & fb & Hin)]; log_inv.
       - intros fu du ru Hu. log_inv.
       - constructor; [simpl; auto|]. by rewrite app_nil_r. }
  io_bind in H as r2 e2 Hf2.
  pose proof (fetch_events _ _ _ _ _ Hf2) as C2.
  pose proof (Forall_impl _ _ _ C2 fetch_not_build) as B2.
  destruct r2 as [sig|e2'].
  2: { io_run in H. split_and!.
       - intros msg [Hin|(fa & fb & Hin)]; log_inv.
       - intros fu du ru Hu. log_inv.
       - constructor; [simpl; auto|]. rewrite app_nil_r. by apply Forall_app. }
  io_bind in H as r3 e3 Hv. unfold fetchify_verify in Hv.
  destruct (openpgp_CheckArmoredDetachedSignature _ _ _ _) as [[verdict n1] n2].
  io_run in Hv; io_run in H.
  all: split_and!;
    [ intros msg [Hin|(fa & fb & Hin)]; log_inv;
      (split; [done|]); intros (fu & du & ru & Hu); log_inv
    | intros fu du ru Hu; log_inv; try (split; [done|]; exists (advance tbz n1), (advance sig n2); split; set_solver)
    | rewrite ?Forall_cons, ?Forall_app, ?Forall_nil; split_and!; simpl; auto ].
Qed.

Lemma build_outcome root version h err evs :
  build sys root version h = (err, evs) →
  Forall buildEvent evs ∧ (err = None ↔ ∃ cmd, EvRun cmd None ∈ evs).
Proof.
  unfold build. intros H. io_run in H.
  all: split; [repeat constructor|].
  all: split; [intros Hn; first [discriminate Hn|eexists; log_find]|].
  all: intros [c Hin]; log_inv; done.
Qed.

(** With the unpacked tree in place, [installVer] is the presence check
    followed by the build. *)
Lemma installVer_unpacked root version h err evs :
  installVer sys root version h = (err, evs) →
  os_Stat sys h (filepath_Join sys [root; version; "go"]) = None →
  ∃ evs', evs = EvStat (filepath_Join sys [root; version; "go"]) None :: evs' ∧
          build sys root version
            (h ++ [EvStat (filepath_Join sys [root; version; "go"]) None]) =
          (err, evs').
Proof.
  unfold installVer. intros H Hstat.
  io_bind in H as r0 e0 Hs. unfold call in Hs. rewrite Hstat in Hs. simplify_eq.
  io_bind in H as r1 e1 Hr. unfold ret in Hr. simplify_eq.
  rewrite app_nil_r in H. eauto.
Qed.

(** The log of [installVer]: the presence check, then either nothing
    more than the directory creation and the run of [fetchify], or the
    build as well. *)
Lemma installVer_shape root version h err evs :
  installVer sys root version h = (err, evs) →
  ∃ s ef eb,
    evs = EvStat (filepath_Join sys [root; version; "go"]) s :: ef ++ eb ∧
    Forall buildEvent eb ∧
    ((ef = [] ∧ s = None) ∨
     (∃ e, s = Some e ∧ eb = [] ∧
        ∃ m, ef = [EvMkdirAll (filepath_Join sys [root; version]) mode_0755 (Some m)]) ∨
     (∃ e ferr ef' h', s = Some e ∧
        ef = EvMkdirAll (filepath_Join sys [root; version]) mode_0755 None :: ef' ∧
        fetchify sys
          ("https://dl.google.com/go/go" +:+ version +:+ ".src.tar.gz")
          (filepath_Join sys [root; version; "go" +:+ version +:+ ".src.tar.gz"])
          h' = (ferr, ef') ∧
        match ferr with
        | Some e' => err = Some ("failed to verify: " +:+ e') ∧ eb = []
        | None => True
        end)).
Proof.
  unfold installVer. intros H.
  io_bind in H as s e0 Hs. unfold call in Hs. simplify_eq.
  destruct (os_Stat _ _ _) as [e|] eqn:Hstat.
  - io_bind in H as r1 e1 Hr. io_bind in Hr as m e2 Hm.
    unfold call in Hm. simplify_eq.
    destruct (os_MkdirAll _ _ _ _) as [m|] eqn:Hmk.
    + io_run in Hr. io_run in H. eexists _, _, []. split; [reflexivity|].
      split; [constructor|]. right. left. eauto 6.
    + io_bind in Hr as ferr ef' Hf. destruct ferr as [e'|].
      * io_run in Hr. io_run in H. eexists _, _, []. split; [reflexivity|].
        split; [constructor|]. right. right. eexists e, (Some e'), ef', _.
        rewrite app_nil_r. split_and!; [done|done|exact Hf|done|done].
      * io_run in Hr. destruct (build_outcome _ _ _ _ _ H) as [Hb _].
        eexists (Some e), (_ :: ef'), _. split; [|split; [exact Hb|]].
        { simpl. rewrite app_nil_r. reflexivity. }
        right. right. eexists e, None, ef', _. split_and!; [done|done|exact Hf|done].
  - io_bind in H as r1 e1 Hr. unfold ret in Hr. simplify_eq.
    destruct (build_outcome _ _ _ _ _ H) as [Hb _].
    eexists None, [], _. split; [reflexivity|]. split; [exact Hb|]. by left.
Qed.

End io_facts.

(** ** The claims about the install pipeline *)

(** C1. If the signature verification of the fetched archive fails (the
    trusted key does not parse, the signature does not parse, or it does
    not match), [installVer] returns the wrapped verification error and
    the archive is never handed to [Untar], the only step that produces
    the unpacked tree. *)
Theorem installVer_failed_verification_not_extracted
    sys root version h err evs e :
  installVer sys root version h = (err, evs) →
  verificationFailed evs e →
  err = Some ("failed to verify: " +:+ e) ∧ ¬ extracted evs.
Proof.
  intros Hrun Hfail.
  destruct (installVer_shape _ _ _ _ _ _ Hrun) as (s & ef & eb & -> & Hb & Hcase).
  assert (∀ l, verificationFailed (EvStat (filepath_Join sys [root; version; "go"]) s
                                    :: l ++ eb) e → verificationFailed l e) as Hin.
  { intros l [Hi|(a & b & Hi)]; [left|right; exists a, b]; log_inv; done. }
  assert (∀ l, extracted (EvStat (filepath_Join sys [root; version; "go"]) s
                            :: l ++ eb) → extracted l) as Hex.
  { intros l (f & d & r & Hi). exists f, d, r. log_inv. done. }
  destruct Hcase as [[-> ->]|[(e0 & -> & -> & m & ->)|(e0 & ferr & ef' & h' & -> & -> & Hf & Hm)]].
  - apply Hin in Hfail as [Hi|(a & b & Hi)]; log_inv.
  - apply Hin in Hfail as [Hi|(a & b & Hi)]; log_inv.
  - destruct (fetchify_outcome _ _ _ _ _ _ Hf) as (Hv & _ & _).
    assert (verificationFailed ef' e) as Hfail'.
    { apply Hin in Hfail as [Hi|(a & b & Hi)]; [left|right; exists a, b];
        log_inv; done. }
    destruct (Hv _ Hfail') as [-> Hnox]. destruct Hm as [-> ->].
    split; [done|]. intros Hu%Hex. apply Hnox.
    destruct Hu as (f & d & r & Hi). exists f, d, r. log_inv. done.
Qed.

Lemma installVer_failed_verification_witness :
  let run := installVer sysBadSig "/home/gopher/sdk/gover" "1.21.0" [] in
  verificationFailed run.2 "openpgp: invalid signature: hash tag doesn't match" ∧
  run.1 = Some "failed to verify: openpgp: invalid signature: hash tag doesn't match" ∧
  ¬ extracted run.2.
Proof.
  intros run.
  assert (verificationFailed run.2
            "openpgp: invalid signature: hash tag doesn't match") as Hfail.
  { right. vm_compute. eexists _, _.
    repeat first [apply list_elem_of_here | apply list_elem_of_further]. }
  split; [exact Hfail|].
  apply (installVer_failed_verification_not_extracted
           sysBadSig "/home/gopher/sdk/gover" "1.21.0" [] run.1 run.2);
    [apply surjective_pairing|exact Hfail].
Defined.

(** C2, as the code has it.  When the unpacked tree [root/version/go] is
    present, [installVer] creates no directory, fetches nothing, verifies
    nothing and extracts nothing; it goes straight to the build step, and
    it succeeds exactly when the make script ran and succeeded. *)
Theorem installVer_unpacked_goes_to_build sys root version h err evs :
  installVer sys root version h = (err, evs) →
  os_Stat sys h (filepath_Join sys [root; version; "go"]) = None →
  ∃ evs',
    evs = EvStat (filepath_Join sys [root; version; "go"]) None :: evs' ∧
    build sys root version
      (h ++ [EvStat (filepath_Join sys [root; version; "go"]) None]) = (err, evs') ∧
    Forall buildEvent evs' ∧
    (err = None ↔ ∃ cmd, EvRun cmd None ∈ evs').
Proof.
  intros Hrun Hstat.
  destruct (installVer_unpacked _ _ _ _ _ _ Hrun Hstat) as (evs' & -> & Hb).
  exists evs'. destruct (build_outcome _ _ _ _ _ _ Hb) as [Hcl Hok]. done.
Qed.

Lemma installVer_unpacked_witness :
  os_Stat sysUnpacked [] (filepath_Join sysUnpacked
                            ["/home/gopher/sdk/gover"; "1.21.0"; "go"]) = None ∧
  ∃ evs',
    (installVer sysUnpacked "/home/gopher/sdk/gover" "1.21.0" []).2 =
      EvStat "/home/gopher/sdk/gover/1.21.0/go" None :: evs' ∧
    Forall buildEvent evs'.
Proof.
  split; [reflexivity|].
  destruct (installVer_unpacked_goes_to_build sysUnpacked
              "/home/gopher/sdk/gover" "1.21.0" [] _ _
              (surjective_pairing _) eq_refl) as (evs' & Hevs & _ & Hcl & _).
  exists evs'. split; [exact Hevs|exact Hcl].
Defined.

(** C2 as stated fails: with the unpacked tree present, [installVer]
    still runs the make script, and returns its failure. *)
Lemma installVer_unpacked_still_builds :
  os_Stat sysUnpacked [] (filepath_Join sysUnpacked
                            ["/home/gopher/sdk/gover"; "1.21.0"; "go"]) = None ∧
  installVer sysUnpacked "/home/gopher/sdk/gover" "1.21.0" [] =
    (Some "failed to build go: exit status 2",
     [EvStat "/home/gopher/sdk/gover/1.21.0/go" None;
      EvRun {| Path := "/home/gopher/sdk/gover/1.21.0/go/src/make.bash";
               Args := ["/home/gopher/sdk/gover/1.21.0/go/src/make.bash"];
               Dir := "/home/gopher/sdk/gover/1.21.0/go/src";
               Env := None; Stdin := false; Stdout := true; Stderr := true |}
            (Some (ExitError "exit status 2"))]).
Proof. split; vm_compute; reflexivity. Qed.




(** C8, as the code has it.  [fetch] fails exactly when the local file
    cannot be created, [http.Get] returns an error, copying the body to
    the file fails, or the rewind fails.  A response is not looked at
    for its status code: whatever the status, its whole body is written
    to the file and the handle is returned at offset zero. *)
Theorem fetch_fails_exactly sys a b h r evs :
  fetch sys a b h = (r, evs) →
  (∀ e, r = Err e ↔
     EvCreate b (Some e) ∈ evs ∨ EvGet a (Err e) ∈ evs ∨
     (∃ body, EvCopy b body (Some e) ∈ evs) ∨
     (∃ f, EvSeek f (Some e) ∈ evs)) ∧
  (∀ f, r = Ok f →
     ∃ resp, EvGet a (Ok resp) ∈ evs ∧ EvCopy b (Body resp) None ∈ evs ∧
             f = {| Name := b; data := Body resp; offset := 0 |}).
Proof.
  unfold fetch. intros H. io_run in H.
  all: split; [intros msg; split; [intros [= <-]|]|intros f0 [= <-]].
  all: try (eexists; split_and!; [log_find|log_find|reflexivity]).
  all: try (intros [Hi|[Hi|[[x Hi]|[x Hi]]]]; log_inv; done).
  all: first [ left; log_find
             | right; left; log_find
             | right; right; left; eexists; log_find
             | right; right; right; eexists; log_find ].
Qed.

Lemma fetch_fails_exactly_witness :
  let run := fetch sys404 "https://dl.google.com/go/go0.0.0.src.tar.gz"
               "/home/gopher/sdk/gover/0.0.0/go0.0.0.src.tar.gz" [] in
  run.1 = Ok {| Name := "/home/gopher/sdk/gover/0.0.0/go0.0.0.src.tar.gz";
                data := "404 page not found"; offset := 0 |} ∧
  ∃ resp, EvGet "https://dl.google.com/go/go0.0.0.src.tar.gz" (Ok resp) ∈ run.2 ∧
          EvCopy "/home/gopher/sdk/gover/0.0.0/go0.0.0.src.tar.gz"
                 (Body resp) None ∈ run.2 ∧
          {| Name := "/home/gopher/sdk/gover/0.0.0/go0.0.0.src.tar.gz";
             data := "404 page not found"; offset := 0 |} =
          {| Name := "/home/gopher/sdk/gover/0.0.0/go0.0.0.src.tar.gz";
             data := Body resp; offset := 0 |}.
Proof.
  intros run. split; [reflexivity|].
  exact (proj2 (fetch_fails_exactly sys404 _ _ [] run.1 run.2
                  (surjective_pairing run)) _ eq_refl).
Defined.

(** C8 as stated fails: a 404 response is no failure of [fetch]; the
    error page is written to the file and returned. *)
Lemma fetch_non_2xx_succeeds :
  fetch sys404 "https://dl.google.com/go/go0.0.0.src.tar.gz"
        "/home/gopher/sdk/gover/0.0.0/go0.0.0.src.tar.gz" [] =
    (Ok {| Name := "/home/gopher/sdk/gover/0.0.0/go0.0.0.src.tar.gz";
           data := "404 page not found"; offset := 0 |},
     [EvPrintf ("Fetching %q" +:+ NL) ["https://dl.google.com/go/go0.0.0.src.tar.gz"];
      EvCreate "/home/gopher/sdk/gover/0.0.0/go0.0.0.src.tar.gz" None;
      EvGet "https://dl.google.com/go/go0.0.0.src.tar.gz"
            (Ok {| StatusCode := 404; Body := "404 page not found" |});
      EvCopy "/home/gopher/sdk/gover/0.0.0/go0.0.0.src.tar.gz"
             "404 page not found" None;
      EvSeek {| Name := "/home/gopher/sdk/gover/0.0.0/go0.0.0.src.tar.gz";
                data := "404 page not found"; offset := 18 |} None;
      EvBodyClose "https://dl.google.com/go/go0.0.0.src.tar.gz"]) ∧
  ¬ is2xx {| StatusCode := 404; Body := "404 page not found" |}.
Proof. split; [vm_compute; reflexivity|]. unfold is2xx. simpl. lia. Qed.

(** C9, as the code has it.  Once the root is resolved, the first thing
    [main] does is [os.MkdirAll(root, 0755)]: owner may read, write and
    search, group and others may read and search but not write.  If that
    fails the process logs the error and exits with status 1, having
    done nothing else. *)
Theorem main_creates_root_first sys h code evs root :
  main sys h = (code, evs) →
  goroot sys "gover" = Ok root →
  ∃ rest,
    evs = EvMkdirAll root mode_0755 (os_MkdirAll sys h root mode_0755) :: rest ∧
    (∀ e, os_MkdirAll sys h root mode_0755 = Some e →
          code = 1%Z ∧
          rest = [EvLog ("failed to create gover directory: " +:+ e +:+ NL)]) ∧
    Z.land mode_0755 mask_0022 = 0%Z ∧
    Z.land mode_0755 mask_0077 = (5 * 8 + 5)%Z.
Proof.
  unfold main. intros H Hroot. rewrite Hroot in H.
  io_bind in H as r e1 Hc. unfold call in Hc. simplify_eq.
  eexists. split; [reflexivity|]. split; [|split; vm_compute; reflexivity].
  intros e He. rewrite He in H. unfold Fatalf in H. io_run in H. done.
Qed.

Lemma main_creates_root_first_witness :
  goroot sysFresh "gover" = Ok "/home/gopher/sdk/gover" ∧
  ∃ rest, (main sysFresh []).2 =
          EvMkdirAll "/home/gopher/sdk/gover" mode_0755 None :: rest.
Proof.
  split; [reflexivity|].
  destruct (main_creates_root_first sysFresh [] _ _ "/home/gopher/sdk/gover"
              (surjective_pairing _) eq_refl) as (rest & Hevs & _).
  exists rest. exact Hevs.
Defined.

(** C9 as stated fails on the permissions: the mode given for the root
    is 0755, which lets group and others read and search it. *)
Lemma root_mode_not_owner_only :
  (∃ rest, main sysFresh [] =
           (0%Z, EvMkdirAll "/home/gopher/sdk/gover" mode_0755 None :: rest)) ∧
  Z.land mode_0755 mask_0077 ≠ 0%Z.
Proof. split; [eexists; vm_compute; reflexivity|]. by vm_compute. Qed.

(** C7, as the code has it.  [homedir] returns the value of the home
    variable of the platform when it is not empty, as it stands, without
    asking whether it is an absolute path; on the default platform
    family only, when [HOME] is empty, it returns the home directory of
    the current user when the lookup gives a non-empty one.  Without
    such a signal it fails, and so does [goroot]: no other path is ever
    put in its place.  [goroot] joins the directory with [sdk] and the
    name it is given. *)
Theorem homedir_signal_or_error sys :
  (∀ d, homedir sys = Ok d ↔
     d ≠ "" ∧
     (os_Getenv sys (homeVar sys) = d ∨
      (defaultFamily sys ∧ os_Getenv sys "HOME" = "" ∧ user_Current sys = Ok d))) ∧
  (os_Getenv sys (homeVar sys) = "" →
   (defaultFamily sys → ∀ d, user_Current sys = Ok d → d = "") →
   ∃ e, homedir sys = Err e ∧
        ∀ v, goroot sys v = Err ("failed to get home directory: " +:+ e)) ∧
  (∀ v p, goroot sys v = Ok p ↔
     ∃ d, homedir sys = Ok d ∧ p = filepath_Join sys [d; "sdk"; v]).
Proof.
  assert (os_Getenv sys (homeVar sys) = "" →
          (defaultFamily sys → ∀ d, user_Current sys = Ok d → d = "") →
          ∃ e, homedir sys = Err e) as Hnone.
  { unfold homedir, homeVar, defaultFamily. intros Hv Hu.
    repeat case_decide; try congruence; eauto.
    destruct (user_Current sys) as [d|] eqn:Hc; [|eauto].
    case_decide; [|eauto]. exfalso. naive_solver. }
  split_and!.
  - unfold homedir, homeVar, defaultFamily. intros d.
    repeat case_decide; try destruct (user_Current sys) eqn:Hu;
      repeat case_decide; split;
      intuition (simplify_eq; try congruence; eauto 6).
  - intros Hv Hu. destruct (Hnone Hv Hu) as [e He]. exists e. split; [done|].
    intros v. unfold goroot. by rewrite He.
  - intros v p. unfold goroot. destruct (homedir sys) as [d|e]; split.
    + intros [= <-]. eauto.
    + intros (d' & [= <-] & ->). done.
    + done.
    + intros (d' & [=] & _).
Qed.

Lemma homedir_signal_or_error_witness :
  ∃ e, homedir (unixSys "linux" (homeIs "") [] (λ _, None) (serve 200 "") None None)
       = Err e.
Proof.
  destruct (proj1 (proj2 (homedir_signal_or_error
              (unixSys "linux" (homeIs "") [] (λ _, None) (serve 200 "") None None)))
              eq_refl) as (e & He & _).
  - intros _ d Hd. discriminate Hd.
  - exists e. exact He.
Defined.

(** C7 as stated fails: a relative [HOME] is taken as it is, and the
    root that comes out is a relative path. *)
Lemma relative_home_relative_root :
  homedir sysRelHome = Ok "tmp" ∧
  goroot sysRelHome "gover" = Ok "tmp/sdk/gover" ∧
  unix_IsAbs "tmp/sdk/gover" = false.
Proof. split_and!; vm_compute; reflexivity. Qed.

(** ** The claims about the environment composer *)

Section dedup_claims.

(** The Unicode case tables behind [strings.ToLower]. *)
Variable lower : string → string.

Lemma last_withKey_elem c k l kv :
  last (withKey lower c k l) = Some kv →
  kv ∈ l ∧ envKey lower c kv = Some k.
Proof.
  intros Hl%last_Some_elem_of. unfold withKey in Hl.
  by apply list_elem_of_filter in Hl as [? ?].
Qed.

(** The last input entry with a key is in the result. *)
Lemma dedup_last_kept c env k kv :
  last (withKey lower c k env) = Some kv → kv ∈ dedupEnv lower c env.
Proof.
  intros Hl. destruct (last_withKey_elem _ _ _ _ Hl) as [Hin Hk].
  destruct (dedup_key_kept lower c env kv k Hin Hk)
    as (i & e' & Hi & Hk').
  pose proof (dedup_last_wins lower c env i e' k Hi Hk') as Hl'.
  assert (e' = kv) as -> by congruence. by eapply list_elem_of_lookup_2.
Qed.

(** C4. For every environment list and either value of the flag, the
    result of [dedupEnv] (a) has no two keyed entries with the same key
    under the comparison in force; (b) holds, for each key of the input,
    the text of the last input entry with that key, and an entry whose
    key is already there is written over the earlier one at its index,
    moving nothing; (c) has its keyed entries in the order in which
    their keys first occur in the input. *)
Theorem dedupEnv_unique_last_wins_ordered c env :
  (∀ i j a b k,
     dedupEnv lower c env !! i = Some a →
     dedupEnv lower c env !! j = Some b →
     envKey lower c a = Some k → envKey lower c b = Some k → i = j) ∧
  (∀ k kv, last (withKey lower c k env) = Some kv →
           kv ∈ dedupEnv lower c env) ∧
  (∀ i e k, dedupEnv lower c env !! i = Some e →
            envKey lower c e = Some k →
            last (withKey lower c k env) = Some e) ∧
  (∀ kv k i old,
     envKey lower c kv = Some k →
     dedupEnv lower c env !! i = Some old → envKey lower c old = Some k →
     dedupEnv lower c (env ++ [kv]) = <[i := kv]> (dedupEnv lower c env)) ∧
  (∀ i j ei ej ki kj,
     dedupEnv lower c env !! i = Some ei →
     dedupEnv lower c env !! j = Some ej →
     envKey lower c ei = Some ki → envKey lower c ej = Some kj →
     ∃ a b, firstIndex lower c ki env = Some a ∧
            firstIndex lower c kj env = Some b ∧ (i < j ↔ a < b)).
Proof.
  split_and!.
  - intros *. apply dedup_key_unique.
  - intros *. apply dedup_last_kept.
  - intros *. apply dedup_last_wins.
  - intros *. apply dedup_snoc_seen.
  - intros *. apply dedup_first_order_iff.
Qed.

(** Lowering a key that was read with the case kept. *)
Lemma envKey_lowered kv k :
  envKey lower false kv = Some k →
  envKey lower true kv = Some (strings.ToLower lower k).
Proof.
  unfold envKey. destruct (_ <? 1)%Z; [done|]. by intros [= <-].
Qed.

(** A key of the input has exactly one entry in the result. *)
Lemma dedup_exactly_one c env kv k :
  kv ∈ env → envKey lower c kv = Some k →
  ∃ i e, dedupEnv lower c env !! i = Some e ∧ envKey lower c e = Some k ∧
         ∀ j e', dedupEnv lower c env !! j = Some e' →
                 envKey lower c e' = Some k → j = i.
Proof.
  intros Hin Hk.
  destruct (dedup_key_kept lower c env kv k Hin Hk) as (i & e & Hi & Hke).
  exists i, e. split_and!; [done..|].
  intros j e' Hj Hke'. by eapply dedup_key_unique.
Qed.

(** C5. With [caseInsensitive = true] an entry keyed [Path] and one
    keyed [PATH] have the same key, and the result holds exactly one
    entry for it; with [caseInsensitive = false] both keys keep an entry
    of their own when both are in the input. *)
Theorem dedupEnv_Path_PATH env :
  (∀ kv, kv ∈ env →
     envKey lower false kv = Some "Path" ∨
     envKey lower false kv = Some "PATH" →
     envKey lower true kv = Some "path" ∧
     ∃ i e, dedupEnv lower true env !! i = Some e ∧
            envKey lower true e = Some "path" ∧
            ∀ j e', dedupEnv lower true env !! j = Some e' →
                    envKey lower true e' = Some "path" → j = i) ∧
  (∀ kv1 kv2, kv1 ∈ env → kv2 ∈ env →
     envKey lower false kv1 = Some "Path" →
     envKey lower false kv2 = Some "PATH" →
     ∃ i j e1 e2, i ≠ j ∧
       dedupEnv lower false env !! i = Some e1 ∧
       envKey lower false e1 = Some "Path" ∧
       dedupEnv lower false env !! j = Some e2 ∧
       envKey lower false e2 = Some "PATH") ∧
  dedupEnv lower true ["Path=a"; "PATH=b"] = ["PATH=b"] ∧
  dedupEnv lower false ["Path=a"; "PATH=b"] = ["Path=a"; "PATH=b"].
Proof.
  split_and!.
  - intros kv Hin Hk.
    assert (envKey lower true kv = Some "path") as Hlow.
    { destruct Hk as [Hk|Hk]; by rewrite (envKey_lowered _ _ Hk). }
    split; [done|]. by eapply dedup_exactly_one.
  - intros kv1 kv2 H1 H2 Hk1 Hk2.
    destruct (dedup_key_kept lower false env _ _ H1 Hk1)
      as (i & e1 & Hi & Hke1).
    destruct (dedup_key_kept lower false env _ _ H2 Hk2)
      as (j & e2 & Hj & Hke2).
    exists i, j, e1, e2. split_and!; [|done..].
    intros ->. congruence.
  - vm_compute. reflexivity.
  - vm_compute. reflexivity.
Qed.

(** C6. Composing is idempotent, and composing a base with overrides
    gives, for each key of the overrides, exactly one entry, holding
    the last override for the key; when the composed base had the key
    already, the entry stands at the index the key had there. *)
Theorem dedupEnv_idempotent c :
  (∀ env, dedupEnv lower c (dedupEnv lower c env) = dedupEnv lower c env) ∧
  (∀ base overrides k kv,
     last (withKey lower c k overrides) = Some kv →
     ∃ i, dedupEnv lower c (base ++ overrides) !! i = Some kv ∧
          (∀ j e, dedupEnv lower c (base ++ overrides) !! j = Some e →
                  envKey lower c e = Some k → j = i) ∧
          (∀ i0 old, dedupEnv lower c base !! i0 = Some old →
                     envKey lower c old = Some k → i0 = i)).
Proof.
  split; [apply dedup_idem|].
  intros base overrides k kv Hl.
  assert (last (withKey lower c k (base ++ overrides)) = Some kv) as Hl'.
  { unfold withKey in *. rewrite filter_app, last_app. by rewrite Hl. }
  destruct (last_withKey_elem _ _ _ _ Hl') as [Hin Hk].
  destruct (dedup_exactly_one c _ _ _ Hin Hk) as (i & e & Hi & Hke & Huniq).
  pose proof (dedup_last_wins lower c _ _ _ _ Hi Hke) as Hlast.
  assert (e = kv) as -> by congruence.
  exists i. split_and!; [done..|].
  intros i0 old Hold Hkold.
  destruct (dedup_slot_stable lower c base overrides _ _ Hold)
    as (e' & He' & Hke' & _).
  eapply Huniq; [exact He'|congruence].
Qed.

(** C10. An entry with no [=], and an entry whose first [=] is its
    first byte, has no key: it is appended to the result as it is, it
    stays where it was appended whatever follows, and the entries of
    this kind come out as they came in, in the same order and as many
    times, duplicates included. *)
Theorem dedupEnv_copies_unkeyed c :
  (∀ kv, envKey lower c kv = None ↔ (strings.Index kv "=" < 1)%Z) ∧
  (∀ kv, envKey lower c kv = None ↔
     "="%char ∉ list_ascii_of_string kv ∨ ∃ rest, kv = String "=" rest) ∧
  (∀ env kv, envKey lower c kv = None →
     dedupEnv lower c (env ++ [kv]) = dedupEnv lower c env ++ [kv]) ∧
  (∀ pre kv post, envKey lower c kv = None →
     dedupEnv lower c (pre ++ kv :: post) !! length (dedupEnv lower c pre)
     = Some kv) ∧
  (∀ env, filter (λ e, envKey lower c e = None) (dedupEnv lower c env) =
          filter (λ e, envKey lower c e = None) env) ∧
  dedupEnv lower c ["=C:=C:\Go"; "A=1"; "=C:=C:\Go"; "A=2"; "junk"; "junk"] =
    ["=C:=C:\Go"; "A=2"; "=C:=C:\Go"; "junk"; "junk"].
Proof.
  split_and!.
  - intros kv. unfold envKey.
    destruct (Z.ltb_spec (strings.Index kv "=") 1); split; (done || lia).
  - intros kv. apply envKey_None.
  - intros env kv Hn.
    destruct (dedup_snoc lower c env kv) as
      [[_ ->]|[(k0 & Hk0 & _)|(k0 & i0 & old & Hk0 & _)]]; [done|congruence..].
  - intros *. apply dedup_unkeyed_position.
  - intros env. apply dedup_keeps_unkeyed.
  - destruct c; vm_compute; reflexivity.
Qed.

End dedup_claims.

Lemma dedupEnv_unique_last_wins_ordered_witness :
  dedupEnv id false ["A=1"; "B=2"; "A=3"] = ["A=3"; "B=2"] ∧
  firstIndex id false "A" ["A=1"; "B=2"; "A=3"] = Some 0 ∧
  ∃ a b, firstIndex id false "A" ["A=1"; "B=2"; "A=3"] = Some a ∧
         firstIndex id false "B" ["A=1"; "B=2"; "A=3"] = Some b ∧
         (0 < 1 ↔ a < b).
Proof.
  split; [vm_compute; reflexivity|]. split; [vm_compute; reflexivity|].
  apply (proj2 (proj2 (proj2 (proj2
           (dedupEnv_unique_last_wins_ordered id false ["A=1"; "B=2"; "A=3"]))))
           0 1 "A=3" "B=2" "A" "B");
    vm_compute; reflexivity.
Defined.

Lemma dedupEnv_Path_PATH_witness :
  "Path=a" ∈ ["Path=a"; "HOME=/"; "PATH=b"] ∧
  envKey id false "Path=a" = Some "Path" ∧
  envKey id true "Path=a" = Some "path".
Proof.
  assert ("Path=a" ∈ ["Path=a"; "HOME=/"; "PATH=b"]) as Hin
    by apply list_elem_of_here.
  split; [exact Hin|]. split; [reflexivity|].
  exact (proj1 (proj1 (dedupEnv_Path_PATH id ["Path=a"; "HOME=/"; "PATH=b"])
                  "Path=a" Hin (or_introl eq_refl))).
Defined.

Lemma dedupEnv_idempotent_witness :
  last (withKey id false "PATH" ["GOROOT=/r"; "PATH=/new"]) = Some "PATH=/new" ∧
  ∃ i, dedupEnv id false (["PATH=/old"; "A=1"] ++ ["GOROOT=/r"; "PATH=/new"]) !! i
       = Some "PATH=/new" ∧ 0 = i.
Proof.
  split; [reflexivity|].
  destruct (proj2 (dedupEnv_idempotent id false) ["PATH=/old"; "A=1"]
              ["GOROOT=/r"; "PATH=/new"] "PATH" "PATH=/new" eq_refl)
    as (i & Hi & _ & Hpos).
  exists i. split; [exact Hi|].
  exact (Hpos 0 "PATH=/old" eq_refl eq_refl).
Defined.

Lemma dedupEnv_copies_unkeyed_witness :
  envKey id false "=C:=C:\Go" = None ∧
  dedupEnv id false (["A=1"] ++ "=C:=C:\Go" :: ["A=2"])
    !! length (dedupEnv id false ["A=1"]) = Some "=C:=C:\Go".
Proof.
  split; [reflexivity|].
  exact (proj1 (proj2 (proj2 (proj2 (dedupEnv_copies_unkeyed id false))))
           ["A=1"] "=C:=C:\Go" ["A=2"] eq_refl).
Defined.

(** ** More about the environment composer *)

Section dedup_more.

(** The Unicode case tables behind [strings.ToLower]. *)
Variable lower : string → string.
Variable c : bool.

(** Two loop states with the same [out] have the same [saw]. *)
Lemma saw_ok_unique st1 st2 :
  saw_ok lower c st1 → saw_ok lower c st2 → st1.1 = st2.1 → st1 = st2.
Proof.
  destruct st1 as [out saw1], st2 as [out2 saw2]. simpl.
  intros [A1 B1] [A2 B2] <-. f_equal. apply map_eq. intros k. simpl in *.
  destruct (saw1 !! k) as [i|] eqn:H1.
  - destruct (A1 _ _ H1) as (e & He & Hk). symmetry. eauto.
  - destruct (saw2 !! k) as [i|] eqn:H2; [|done].
    destruct (A2 _ _ H2) as (e & He & Hk). rewrite <- H1. eauto.
Qed.

Lemma dedup_entries_from_input env e :
  e ∈ dedupEnv lower c env → e ∈ env.
Proof.
  intros [i Hi]%list_elem_of_lookup.
  destruct (envKey lower c e) as [k|] eqn:Hk.
  - pose proof (dedup_last_wins lower c env i e k Hi Hk) as Hl.
    apply last_Some_elem_of in Hl. unfold withKey in Hl.
    by apply list_elem_of_filter in Hl as [_ ?].
  - assert (e ∈ filter (λ x, envKey lower c x = None) (dedupEnv lower c env)) as Hin.
    { apply list_elem_of_filter. split; [done|]. by eapply list_elem_of_lookup_2. }
    rewrite dedup_keeps_unkeyed in Hin.
    by apply list_elem_of_filter in Hin as [_ ?].
Qed.

(** X1. Nothing is invented and nothing is lost but shadowed values:
    every entry of the result is an entry of the input, unchanged;
    every input entry without a key is in the result; and every key of
    the input has an entry in the result. *)
Theorem dedupEnv_entries_from_input env :
  (∀ e, e ∈ dedupEnv lower c env → e ∈ env) ∧
  (∀ e, e ∈ env → envKey lower c e = None → e ∈ dedupEnv lower c env) ∧
  (∀ e k, e ∈ env → envKey lower c e = Some k →
     ∃ e', e' ∈ dedupEnv lower c env ∧ envKey lower c e' = Some k).
Proof.
  split_and!.
  - intros e. apply dedup_entries_from_input.
  - intros e Hin Hk.
    assert (e ∈ filter (λ x, envKey lower c x = None) env) as Hf
      by (by apply list_elem_of_filter).
    rewrite <- dedup_keeps_unkeyed in Hf.
    by apply list_elem_of_filter in Hf as [_ ?].
  - intros e k Hin Hk.
    destruct (dedup_key_kept lower c env e k Hin Hk) as (i & e' & Hi & Hk').
    exists e'. split; [by eapply list_elem_of_lookup_2|done].
Qed.

(** X2. The result is never longer than the input, and it is as long as
    the input only when it is the input. *)
Theorem dedupEnv_length env :
  (length (dedupEnv lower c env) ≤ length env)%nat ∧
  (length (dedupEnv lower c env) = length env → dedupEnv lower c env = env).
Proof.
  induction env as [|kv env [IHle IHeq]] using rev_ind; [done|].
  rewrite length_app. simpl.
  destruct (dedup_snoc lower c env kv) as
    [[Hn ->]|[(k0 & Hk0 & Hfresh & ->)|(k0 & i0 & old & Hk0 & Hold & Hkold & ->)]].
  - rewrite length_app. simpl. split; [lia|]. intros Hl. rewrite IHeq; [done|lia].
  - rewrite length_app. simpl. split; [lia|]. intros Hl. rewrite IHeq; [done|lia].
  - rewrite length_insert. split; lia.
Qed.

(** X3. The lists that [dedupEnv] returns unchanged are exactly those
    whose keyed entries have pairwise distinct keys. *)
Theorem dedupEnv_unchanged_iff env :
  dedupEnv lower c env = env ↔ distinctKeys lower c env.
Proof.
  split.
  - intros Heq i j a b k Ha Hb. rewrite <- Heq in Ha, Hb.
    by apply (dedup_key_unique lower c env).
  - apply dedup_fixed.
Qed.

(** X4. Composing in two steps is composing at once: the result for
    [l1 ++ l2] is the result for the composed [l1] followed by [l2]. *)
Theorem dedupEnv_app l1 l2 :
  dedupEnv lower c (l1 ++ l2) = dedupEnv lower c (dedupEnv lower c l1 ++ l2).
Proof.
  assert (dedupLoop lower c (dedupEnv lower c l1) ([], ∅) =
          dedupLoop lower c l1 ([], ∅)) as Hst.
  { apply saw_ok_unique; [apply saw_ok_reach..|]. apply dedup_idem. }
  transitivity (dedupLoop lower c l2 (dedupLoop lower c l1 ([], ∅))).1.
  - unfold dedupEnv, dedupLoop. by rewrite fold_left_app.
  - rewrite <- Hst. generalize (dedupEnv lower c l1). intros d.
    unfold dedupEnv, dedupLoop. by rewrite fold_left_app.
Qed.

Lemma filter_none {A} (P : A → Prop) `{∀ x, Decision (P x)} (l : list A) :
  (∀ x, x ∈ l → ¬ P x) → filter P l = [].
Proof.
  induction l as [|x l IH]; intros Hl; [done|].
  rewrite filter_cons, decide_False by (apply Hl; left).
  apply IH. intros y Hy. apply Hl. by right.
Qed.

Lemma dedup_last_override env kv later k :
  envKey lower c kv = Some k →
  (∀ e, e ∈ later → envKey lower c e ≠ Some k) →
  kv ∈ dedupEnv lower c (env ++ kv :: later) ∧
  ∀ e, e ∈ dedupEnv lower c (env ++ kv :: later) →
       envKey lower c e = Some k → e = kv.
Proof.
  intros Hk Hlater.
  assert (last (withKey lower c k (env ++ kv :: later)) = Some kv) as Hl.
  { unfold withKey. rewrite filter_app, filter_cons, decide_True by done.
    assert (filter (λ e, envKey lower c e = Some k) later = []) as ->.
    { by apply filter_none. }
    by rewrite last_snoc. }
  split.
  - apply last_Some_elem_of in Hl as Hin. unfold withKey in Hin.
    apply list_elem_of_filter in Hin as [_ Hin].
    destruct (dedup_key_kept lower c _ _ _ Hin Hk) as (i & e' & Hi & Hk').
    pose proof (dedup_last_wins lower c _ _ _ _ Hi Hk') as Hl'.
    assert (e' = kv) as -> by congruence. by eapply list_elem_of_lookup_2.
  - intros e [i Hi]%list_elem_of_lookup Hke.
    pose proof (dedup_last_wins lower c _ _ _ _ Hi Hke). congruence.
Qed.

(** X5. An entry followed by no entry with its key is in the result,
    and it is the only entry of the result with that key. *)
Theorem dedupEnv_last_override env kv later k :
  envKey lower c kv = Some k →
  (∀ e, e ∈ later → envKey lower c e ≠ Some k) →
  kv ∈ dedupEnv lower c (env ++ kv :: later) ∧
  ∀ e, e ∈ dedupEnv lower c (env ++ kv :: later) →
       envKey lower c e = Some k → e = kv.
Proof. apply dedup_last_override. Qed.

(** X6. The loop invariant: after any number of iterations, [saw] is an
    exact index of the keyed entries of [out].  So the index read from
    [saw] is inside [out], where the assignment [out[dupIdx] = kv] finds
    an entry with the key of [kv]. *)
Theorem dedupLoop_saw_indexes_out env :
  (∀ k i, (dedupLoop lower c env ([], ∅)).2 !! k = Some i →
     (i < length (dedupLoop lower c env ([], ∅)).1)%nat ∧
     ∃ e, (dedupLoop lower c env ([], ∅)).1 !! i = Some e ∧
          envKey lower c e = Some k) ∧
  (∀ i e k, (dedupLoop lower c env ([], ∅)).1 !! i = Some e →
     envKey lower c e = Some k →
     (dedupLoop lower c env ([], ∅)).2 !! k = Some i).
Proof.
  destruct (saw_ok_reach lower c env) as [S1 S2]. split; [|exact S2].
  intros k i Hi. destruct (S1 _ _ Hi) as (e & He & Hk).
  split; [by eapply lookup_lt_Some|eauto].
Qed.

End dedup_more.

Section key_parse.

Import strings.

Lemma IndexByte_split s a :
  (0 ≤ IndexByte s a)%Z →
  ∃ pre post, s = (pre +:+ String a post) ∧
              (a ∉ list_ascii_of_string pre) ∧
              Z.of_nat (String.length pre) = IndexByte s a ∧
              String.substring 0 (String.length pre) s = pre.
Proof.
  induction s as [|b s IH]; simpl; [lia|].
  destruct (Ascii.eqb_spec b a) as [->|Hne].
  - intros _. exists "", s. split_and!; [done|apply not_elem_of_nil|done|done].
  - destruct (Z.ltb_spec (IndexByte s a) 0); [lia|]. intros _.
    destruct IH as (pre & post & -> & Hnot & Hlen & Hsub); [lia|].
    exists (String b pre), post. split_and!.
    + done.
    + simpl. rewrite not_elem_of_cons. split; [congruence|done].
    + simpl String.length. lia.
    + simpl. by rewrite Hsub.
Qed.

Lemma IndexByte_append pre a post :
  a ∉ list_ascii_of_string pre →
  IndexByte (pre +:+ String a post) a = Z.of_nat (String.length pre).
Proof.
  induction pre as [|b pre IH]; simpl.
  - intros _. by rewrite Ascii.eqb_refl.
  - rewrite not_elem_of_cons. intros [Hne Hnot].
    destruct (Ascii.eqb_spec b a) as [->|_]; [done|].
    rewrite IH by done. destruct (Z.ltb_spec (Z.of_nat (String.length pre)) 0); lia.
Qed.

Lemma substring_append pre s :
  String.substring 0 (String.length pre) (pre +:+ s) = pre.
Proof.
  induction pre as [|b pre IH]; simpl; [by destruct s|by rewrite IH].
Qed.

(** X7. The key of an entry is the non-empty text before its first
    [=]: [envKey] gives [k] exactly for the entries [k=v] with [k]
    non-empty and free of [=]; when case is ignored the key is that
    text lowered. *)
Theorem envKey_parses_key_value lower kv :
  (∀ k, envKey lower false kv = Some k ↔
     k ≠ "" ∧ ("="%char ∉ list_ascii_of_string k) ∧ ∃ v, kv = (k +:+ "=" +:+ v)) ∧
  (∀ k', envKey lower true kv = Some k' ↔
     ∃ k, envKey lower false kv = Some k ∧ k' = ToLower lower k).
Proof.
  split.
  - intros k. unfold envKey, Index, slice_to. split.
    + destruct (Z.ltb_spec (IndexByte kv "=") 1) as [|Hge]; [done|].
      intros [= <-].
      destruct (IndexByte_split kv "=") as (pre & post & Heq & Hnot & Hlen & Hsub);
        [lia|].
      rewrite <- Hlen, Nat2Z.id, Hsub. split_and!; [|done|by exists post].
      intros ->. simpl in Hlen. lia.
    + intros (Hne & Hnot & v & ->).
      change (k +:+ "=" +:+ v) with (k +:+ String "="%char v).
      rewrite (IndexByte_append k "=" v Hnot).
      assert (String.length k ≠ 0)%nat by (by destruct k).
      destruct (Z.ltb_spec (Z.of_nat (String.length k)) 1); [lia|].
      by rewrite Nat2Z.id, substring_append.
  - intros k'. unfold envKey. destruct (_ <? 1)%Z; split.
    + done.
    + by intros (k & [=] & _).
    + intros [= <-]. eauto.
    + by intros (k & [= <-] & ->).
Qed.

End key_parse.

(** ** More about the install pipeline *)

Section io_more.

Variable sys : Sys.

Lemma fetch_targets a b h r evs :
  fetch sys a b h = (r, evs) →
  (∀ url x, EvGet url x ∈ evs → url = a ∧ EvCreate b None ∈ evs) ∧
  (∀ name x, EvCreate name x ∈ evs → name = b) ∧
  (∀ name body x, EvCopy name body x ∈ evs →
     name = b ∧ ∃ resp, EvGet a (Ok resp) ∈ evs ∧ body = Body resp) ∧
  (∀ f, r = Ok f →
     ∃ resp, EvGet a (Ok resp) ∈ evs ∧
             f = {| Name := b; data := Body resp; offset := 0 |}).
Proof.
  unfold fetch. intros H. io_run in H.
  all: split_and!;
    [intros url x Hin|intros name x Hin|intros name body x Hin|intros f0 Hf0].
  all: log_inv; try done.
  all: try (split; [done|log_find]).
  all: try (split; [done|]; eexists; split; [log_find|done]).
  all: simplify_eq; eexists; split; [log_find|done].
Qed.

(** X8. [fetch] asks for the URL it is given and no other, and only
    once the local file is created; it creates and writes the file it
    is given and no other, and what it writes is the body of the
    response. *)
Theorem fetch_touches_only_its_arguments a b h r evs :
  fetch sys a b h = (r, evs) →
  (∀ url x, EvGet url x ∈ evs → url = a ∧ EvCreate b None ∈ evs) ∧
  (∀ name x, EvCreate name x ∈ evs → name = b) ∧
  (∀ name body x, EvCopy name body x ∈ evs →
     name = b ∧ ∃ resp, EvGet a (Ok resp) ∈ evs ∧ body = Body resp).
Proof.
  intros H. destruct (fetch_targets _ _ _ _ _ H) as (H1 & H2 & H3 & _). done.
Qed.

(** The log of the signature check, path by path. *)
Lemma verify_log kr tbz sig h verr tbz' sig' e3 :
  fetchify_verify sys kr tbz sig h = ((verr, tbz', sig'), e3) →
  ∃ n1 n2, sig' = advance sig n2 ∧
    ((∃ e, verr = Some e ∧ tbz' = advance tbz n1 ∧
           e3 = [EvCheckSignature (advance tbz n1) sig' (Some e)]) ∨
     (∃ e, verr = Some e ∧ tbz' = advance tbz n1 ∧
           e3 = [EvCheckSignature (advance tbz n1) sig' None;
                 EvPrintln "Signature OK.";
                 EvSeek (advance tbz n1) (Some e)]) ∨
     (verr = None ∧ tbz' = rewind (advance tbz n1) ∧
      e3 = [EvCheckSignature (advance tbz n1) sig' None;
            EvPrintln "Signature OK.";
            EvSeek (advance tbz n1) None])).
Proof.
  unfold fetchify_verify.
  destruct (openpgp_CheckArmoredDetachedSignature _ _ _ _) as [[verdict n1] n2].
  intros H. exists n1, n2. io_run in H; split; try done; eauto 6.
Qed.

(** The log of [fetchify], path by path. *)
Lemma fetchify_log goURL fp h err evs :
  fetchify sys goURL fp h = (err, evs) →
  (∃ e, err = Some e ∧ evs = [EvReadKeyRing (Some e)]) ∨
  (∃ e e1 h1, err = Some e ∧ evs = EvReadKeyRing None :: e1 ∧
     fetch sys goURL fp h1 = (Err e, e1)) ∨
  (∃ e tbz e1 e2 h1 h2, err = Some e ∧ evs = EvReadKeyRing None :: e1 ++ e2 ∧
     fetch sys goURL fp h1 = (Ok tbz, e1) ∧
     fetch sys (goURL +:+ ".asc") (fp +:+ ".asc") h2 = (Err e, e2)) ∨
  (∃ tbz sig e1 e2 h1 h2 kr h3 verr tbz' sig' e3 tail,
     fetch sys goURL fp h1 = (Ok tbz, e1) ∧
     fetch sys (goURL +:+ ".asc") (fp +:+ ".asc") h2 = (Ok sig, e2) ∧
     fetchify_verify sys kr tbz sig h3 = ((verr, tbz', sig'), e3) ∧
     evs = EvReadKeyRing None :: e1 ++ e2 ++ e3 ++ tail ++
           [EvClose sig'; EvClose tbz'] ∧
     match verr with
     | Some e => tail = [] ∧ err = Some e
     | None => tail = [EvUntar tbz' (path_Dir sys fp) err]
     end).
Proof.
  unfold fetchify. intros H.
  destruct (openpgp_ReadArmoredKeyRing _ _) as [kr|e0].
  2: { io_run in H. left. eauto. }
  right. io_emit in H. io_bind in H as r1 e1 Hf1.
  destruct r1 as [tbz|e1'].
  2: { io_run in H. left. eexists e1', e1, _. rewrite app_nil_r.
       split_and!; [done|done|exact Hf1]. }
  right. io_bind in H as r2 e2 Hf2. destruct r2 as [sig|e2'].
  2: { io_run in H. left. eexists e2', tbz, e1, e2, _, _. rewrite ?app_nil_r.
       split_and!; [done|done|exact Hf1|exact Hf2]. }
  right. io_bind in H as r3 e3 Hv. destruct r3 as [[verr tbz'] sig'].
  eexists tbz, sig, e1, e2, _, _, kr, _, verr, tbz', sig', e3.
  destruct verr as [e|].
  - io_run in H. exists []. split_and!; [exact Hf1|exact Hf2|exact Hv|done..].
  - io_bind in H as r4 e4 Hu. unfold call in Hu. simplify_eq. io_run in H.
    eexists. split_and!; [exact Hf1|exact Hf2|exact Hv| |reflexivity].
    simpl. by rewrite <- !app_assoc.
Qed.

(** The three ways the signature check can go, with what follows it in
    the log of [fetchify]. *)
Ltac verify_cases Hv Htail :=
  let n1 := fresh "n1" in let n2 := fresh "n2" in let e0 := fresh "e0" in
  destruct (verify_log _ _ _ _ _ _ _ _ Hv) as
    (n1 & n2 & -> & [(e0 & -> & -> & ->)|[(e0 & -> & -> & ->)|(-> & -> & ->)]]);
  simpl in Htail;
  [destruct Htail as [-> ->]|destruct Htail as [-> ->]|subst].

(** X9. When the embedded key does not parse, [fetchify] returns that
    error having done nothing else: no file is created and no request
    is made. *)
Theorem fetchify_bad_key_stops_first goURL fp h err evs e :
  fetchify sys goURL fp h = (err, evs) →
  EvReadKeyRing (Some e) ∈ evs →
  err = Some e ∧ evs = [EvReadKeyRing (Some e)].
Proof.
  intros H Hin.
  destruct (fetchify_log _ _ _ _ _ H) as
    [(e0 & -> & ->)
    |[(e0 & e1 & h1 & -> & -> & Hf1)
     |[(e0 & tbz & e1 & e2 & h1 & h2 & -> & -> & Hf1 & Hf2)
      |(tbz & sig & e1 & e2 & h1 & h2 & kr & h3 & verr & tbz' & sig' & e3 & tail
        & Hf1 & Hf2 & Hv & -> & Htail)]]].
  - log_inv. done.
  - pose proof (fetch_events _ _ _ _ _ _ Hf1). log_inv.
  - pose proof (fetch_events _ _ _ _ _ _ Hf1).
    pose proof (fetch_events _ _ _ _ _ _ Hf2). log_inv.
  - pose proof (fetch_events _ _ _ _ _ _ Hf1).
    pose proof (fetch_events _ _ _ _ _ _ Hf2).
    verify_cases Hv Htail; log_inv.
Qed.

Lemma fetchify_gets goURL fp h err evs url x :
  fetchify sys goURL fp h = (err, evs) →
  EvGet url x ∈ evs →
  url = goURL ∨
  (url = goURL +:+ ".asc" ∧ ∃ resp, EvGet goURL (Ok resp) ∈ evs).
Proof.
  intros H Hin.
  destruct (fetchify_log _ _ _ _ _ H) as
    [(e0 & -> & ->)
    |[(e0 & e1 & h1 & -> & -> & Hf1)
     |[(e0 & tbz & e1 & e2 & h1 & h2 & -> & -> & Hf1 & Hf2)
      |(tbz & sig & e1 & e2 & h1 & h2 & kr & h3 & verr & tbz' & sig' & e3 & tail
        & Hf1 & Hf2 & Hv & -> & Htail)]]].
  - log_inv.
  - destruct (fetch_targets _ _ _ _ _ Hf1) as (G1 & _).
    apply elem_of_cons in Hin as [|Hin]; [done|]. left. by apply G1 in Hin as [? _].
  - destruct (fetch_targets _ _ _ _ _ Hf1) as (G1 & _ & _ & O1).
    destruct (fetch_targets _ _ _ _ _ Hf2) as (G2 & _).
    destruct (O1 _ eq_refl) as (resp & Hresp & _).
    apply elem_of_cons in Hin as [|Hin]; [done|].
    apply elem_of_app in Hin as [Hin|Hin].
    + left. by apply G1 in Hin as [? _].
    + right. apply G2 in Hin as [-> _]. split; [done|]. exists resp.
      apply list_elem_of_further, elem_of_app. by left.
  - destruct (fetch_targets _ _ _ _ _ Hf1) as (G1 & _ & _ & O1).
    destruct (fetch_targets _ _ _ _ _ Hf2) as (G2 & _).
    destruct (O1 _ eq_refl) as (resp & Hresp & _).
    apply elem_of_cons in Hin as [|Hin]; [done|].
    apply elem_of_app in Hin as [Hin|Hin]; [left; by apply G1 in Hin as [? _]|].
    apply elem_of_app in Hin as [Hin|Hin].
    + right. apply G2 in Hin as [-> _]. split; [done|]. exists resp.
      apply list_elem_of_further, elem_of_app. by left.
    + exfalso.
      verify_cases Hv Htail; log_inv.
Qed.

Lemma fetchify_creates goURL fp h err evs name x :
  fetchify sys goURL fp h = (err, evs) →
  EvCreate name x ∈ evs → name = fp ∨ name = fp +:+ ".asc".
Proof.
  intros H Hin.
  destruct (fetchify_log _ _ _ _ _ H) as
    [(e0 & -> & ->)
    |[(e0 & e1 & h1 & -> & -> & Hf1)
     |[(e0 & tbz & e1 & e2 & h1 & h2 & -> & -> & Hf1 & Hf2)
      |(tbz & sig & e1 & e2 & h1 & h2 & kr & h3 & verr & tbz' & sig' & e3 & tail
        & Hf1 & Hf2 & Hv & -> & Htail)]]].
  - log_inv.
  - destruct (fetch_targets _ _ _ _ _ Hf1) as (_ & G1 & _).
    apply elem_of_cons in Hin as [|Hin]; [done|]. left. eauto.
  - destruct (fetch_targets _ _ _ _ _ Hf1) as (_ & G1 & _).
    destruct (fetch_targets _ _ _ _ _ Hf2) as (_ & G2 & _).
    apply elem_of_cons in Hin as [|Hin]; [done|].
    apply elem_of_app in Hin as [Hin|Hin]; eauto.
  - destruct (fetch_targets _ _ _ _ _ Hf1) as (_ & G1 & _).
    destruct (fetch_targets _ _ _ _ _ Hf2) as (_ & G2 & _).
    apply elem_of_cons in Hin as [|Hin]; [done|].
    apply elem_of_app in Hin as [Hin|Hin]; [eauto|].
    apply elem_of_app in Hin as [Hin|Hin]; [eauto|].
    exfalso. verify_cases Hv Htail; log_inv.
Qed.

(** X10. [fetchify] asks for two URLs at most: the archive, and the
    archive URL with [.asc] appended, the latter only after the archive
    was answered; and it creates two files at most, the one it is given
    and that name with [.asc]. *)
Theorem fetchify_requests goURL fp h err evs :
  fetchify sys goURL fp h = (err, evs) →
  (∀ url x, EvGet url x ∈ evs →
     url = goURL ∨
     (url = goURL +:+ ".asc" ∧ ∃ resp, EvGet goURL (Ok resp) ∈ evs)) ∧
  (∀ name x, EvCreate name x ∈ evs → name = fp ∨ name = fp +:+ ".asc").
Proof.
  intros H. split.
  - intros url x Hin. by eapply fetchify_gets.
  - intros name x Hin. by eapply fetchify_creates.
Qed.

Lemma fetchify_untar goURL fp h err evs f dir x :
  fetchify sys goURL fp h = (err, evs) →
  EvUntar f dir x ∈ evs →
  err = x ∧ dir = path_Dir sys fp ∧ Name f = fp ∧
  ∃ resp, EvGet goURL (Ok resp) ∈ evs ∧ data f = Body resp.
Proof.
  intros H Hin.
  destruct (fetchify_log _ _ _ _ _ H) as
    [(e0 & -> & ->)
    |[(e0 & e1 & h1 & -> & -> & Hf1)
     |[(e0 & tbz & e1 & e2 & h1 & h2 & -> & -> & Hf1 & Hf2)
      |(tbz & sig & e1 & e2 & h1 & h2 & kr & h3 & verr & tbz' & sig' & e3 & tail
        & Hf1 & Hf2 & Hv & -> & Htail)]]].
  - log_inv.
  - pose proof (fetch_events _ _ _ _ _ _ Hf1). log_inv.
  - pose proof (fetch_events _ _ _ _ _ _ Hf1).
    pose proof (fetch_events _ _ _ _ _ _ Hf2). log_inv.
  - pose proof (fetch_events _ _ _ _ _ _ Hf1) as C1.
    pose proof (fetch_events _ _ _ _ _ _ Hf2) as C2.
    destruct (fetch_targets _ _ _ _ _ Hf1) as (_ & _ & _ & O1).
    destruct (O1 _ eq_refl) as (resp & Hresp & ->).
    revert Hresp. verify_cases Hv Htail; log_inv. intros Hresp.
    split_and!; [done..|]. exists resp. split; [|done].
    apply list_elem_of_further, elem_of_app. by left.
Qed.

(** X11. What is handed to [Untar] is the file fetched from the archive
    URL, with the body of that response, to be unpacked into the
    directory of that file; and the result of [Untar] is the result of
    [fetchify]. *)
Theorem fetchify_extracts_the_archive goURL fp h err evs f dir x :
  fetchify sys goURL fp h = (err, evs) →
  EvUntar f dir x ∈ evs →
  err = x ∧ dir = path_Dir sys fp ∧ Name f = fp ∧
  ∃ resp, EvGet goURL (Ok resp) ∈ evs ∧ data f = Body resp.
Proof. apply fetchify_untar. Qed.




(** The log of [installVer], path by path. *)
Lemma installVer_log root version h err evs :
  installVer sys root version h = (err, evs) →
  (∃ eb hb,
     evs = EvStat (filepath_Join sys [root; version; "go"]) None :: eb ∧
     build sys root version hb = (err, eb)) ∨
  (∃ s m,
     evs = [EvStat (filepath_Join sys [root; version; "go"]) (Some s);
            EvMkdirAll (filepath_Join sys [root; version]) mode_0755 (Some m)] ∧
     err = Some ("failed to create source directory: " +:+ m)) ∨
  (∃ s e ef hf,
     evs = EvStat (filepath_Join sys [root; version; "go"]) (Some s)
           :: EvMkdirAll (filepath_Join sys [root; version]) mode_0755 None
           :: ef ∧
     fetchify sys (archiveURL version) (archiveFile sys root version) hf
       = (Some e, ef) ∧
     err = Some ("failed to verify: " +:+ e)) ∨
  (∃ s ef eb hf hb,
     evs = EvStat (filepath_Join sys [root; version; "go"]) (Some s)
           :: EvMkdirAll (filepath_Join sys [root; version]) mode_0755 None
           :: ef ++ eb ∧
     fetchify sys (archiveURL version) (archiveFile sys root version) hf
       = (None, ef) ∧
     build sys root version hb = (err, eb)).
Proof.
  unfold installVer, archiveURL, archiveFile. intros H.
  io_bind in H as s e0 Hs. unfold call in Hs. simplify_eq.
  destruct (os_Stat _ _ _) as [e|] eqn:Hstat.
  - right. io_bind in H as r1 e1 Hr. io_bind in Hr as m e2 Hm.
    unfold call in Hm. simplify_eq.
    destruct (os_MkdirAll _ _ _ _) as [m|] eqn:Hmk.
    + io_run in Hr. io_run in H. left. eauto.
    + right. io_bind in Hr as ferr ef Hf. destruct ferr as [e'|].
      * io_run in Hr. io_run in H. left. eexists e, e', ef, _.
        rewrite !app_nil_r. split_and!; [done|exact Hf|done].
      * io_run in Hr. right. eexists e, ef, _, _, _.
        split_and!; [|exact Hf|exact H]. simpl. by rewrite app_nil_r.
  - left. io_bind in H as r1 e1 Hr. unfold ret in Hr. simplify_eq.
    eexists _, _. split; [reflexivity|exact H].
Qed.

Lemma fetch_is_fetchify ev : fetchEvent ev → fetchifyEvent ev.
Proof. by destruct ev. Qed.

Lemma fetchify_is_install ev : fetchifyEvent ev → installEvent ev.
Proof. by destruct ev. Qed.

Lemma build_is_install ev : buildEvent ev → installEvent ev.
Proof. by destruct ev. Qed.

Lemma fetchify_events goURL fp h err evs :
  fetchify sys goURL fp h = (err, evs) → Forall fetchifyEvent evs.
Proof.
  intros H.
  destruct (fetchify_log _ _ _ _ _ H) as
    [(e0 & -> & ->)
    |[(e0 & e1 & h1 & -> & -> & Hf1)
     |[(e0 & tbz & e1 & e2 & h1 & h2 & -> & -> & Hf1 & Hf2)
      |(tbz & sig & e1 & e2 & h1 & h2 & kr & h3 & verr & tbz' & sig' & e3 & tail
        & Hf1 & Hf2 & Hv & -> & Htail)]]].
  - repeat constructor.
  - pose proof (Forall_impl _ _ _ (fetch_events _ _ _ _ _ _ Hf1) fetch_is_fetchify).
    by constructor.
  - pose proof (Forall_impl _ _ _ (fetch_events _ _ _ _ _ _ Hf1) fetch_is_fetchify).
    pose proof (Forall_impl _ _ _ (fetch_events _ _ _ _ _ _ Hf2) fetch_is_fetchify).
    constructor; [done|]. by apply Forall_app.
  - pose proof (Forall_impl _ _ _ (fetch_events _ _ _ _ _ _ Hf1) fetch_is_fetchify).
    pose proof (Forall_impl _ _ _ (fetch_events _ _ _ _ _ _ Hf2) fetch_is_fetchify).
    verify_cases Hv Htail; constructor; try done;
      rewrite !Forall_app; split_and!; try done; repeat constructor.
Qed.

(** [fetchify] succeeds only through a good signature and a good
    extraction. *)
Lemma fetchify_success goURL fp h evs :
  fetchify sys goURL fp h = (None, evs) →
  ∃ f a b, EvUntar f (path_Dir sys fp) None ∈ evs ∧
           EvCheckSignature a b None ∈ evs.
Proof.
  intros H.
  destruct (fetchify_log _ _ _ _ _ H) as
    [(e0 & ? & ->)
    |[(e0 & e1 & h1 & ? & -> & Hf1)
     |[(e0 & tbz & e1 & e2 & h1 & h2 & ? & -> & Hf1 & Hf2)
      |(tbz & sig & e1 & e2 & h1 & h2 & kr & h3 & verr & tbz' & sig' & e3 & tail
        & Hf1 & Hf2 & Hv & -> & Htail)]]]; try done.
  destruct verr as [e|]; simpl in Htail; [by destruct Htail|]. subst tail.
  destruct (verify_log _ _ _ _ _ _ _ _ Hv) as
    (n1 & n2 & -> & [(e0 & [=] & _)|[(e0 & [=] & _)|(_ & -> & ->)]]).
  eexists _, _, _. split.
  - apply list_elem_of_further. rewrite !elem_of_app. right. right. right. left.
    apply list_elem_of_here.
  - apply list_elem_of_further. rewrite !elem_of_app. right. right. left.
    apply list_elem_of_here.
Qed.

(** X19. [fetchify] returns no error exactly when it handed the archive
    to [Untar] and [Untar] returned none; and then the signature check
    had succeeded. *)
Theorem fetchify_succeeds_iff_extracted goURL fp h err evs :
  fetchify sys goURL fp h = (err, evs) →
  (err = None ↔ ∃ f dir, EvUntar f dir None ∈ evs) ∧
  (err = None → ∃ a b, EvCheckSignature a b None ∈ evs).
Proof.
  intros H. split; [split|].
  - intros ->. destruct (fetchify_success _ _ _ _ H) as (f & a & b & Hu & _).
    eauto.
  - intros (f & dir & Hu). by destruct (fetchify_untar _ _ _ _ _ _ _ _ H Hu).
  - intros ->. destruct (fetchify_success _ _ _ _ H) as (f & a & b & _ & Hc).
    eauto.
Qed.

Lemma installVer_events root version h err evs :
  installVer sys root version h = (err, evs) → Forall installEvent evs.
Proof.
  intros H.
  destruct (installVer_log _ _ _ _ _ H) as
    [(eb & hb & -> & Hb)
    |[(s & m & -> & ->)
     |[(s & e & ef & hf & -> & Hf & ->)
      |(s & ef & eb & hf & hb & -> & Hf & Hb)]]].
  - constructor; [done|].
    eapply Forall_impl; [apply (build_outcome _ _ _ _ _ _ Hb)|apply build_is_install].
  - repeat constructor.
  - constructor; [done|]. constructor; [done|].
    eapply Forall_impl; [apply (fetchify_events _ _ _ _ _ Hf)|apply fetchify_is_install].
  - constructor; [done|]. constructor; [done|]. apply Forall_app. split.
    + eapply Forall_impl; [apply (fetchify_events _ _ _ _ _ Hf)|apply fetchify_is_install].
    + eapply Forall_impl; [apply (build_outcome _ _ _ _ _ _ Hb)|apply build_is_install].
Qed.

(** Membership in a log whose events are of a class the event is not
    of. *)
Ltac off_class Hin :=
  match type of Hin with
  | _ ∈ ?l =>
      match goal with
      | Hf : Forall _ l |- _ =>
          apply (proj1 (Forall_forall _ _) Hf) in Hin; simpl in Hin; tauto
      end
  end.

(** X14. [installVer] returns no error exactly when the make script was
    run and succeeded. *)
Theorem installVer_succeeds_iff_built root version h err evs :
  installVer sys root version h = (err, evs) →
  err = None ↔ ∃ c, EvRun c None ∈ evs.
Proof.
  intros H.
  destruct (installVer_log _ _ _ _ _ H) as
    [(eb & hb & -> & Hb)
    |[(s & m & -> & ->)
     |[(s & e & ef & hf & -> & Hf & ->)
      |(s & ef & eb & hf & hb & -> & Hf & Hb)]]].
  - destruct (build_outcome _ _ _ _ _ _ Hb) as [_ ->]. split.
    + intros [c Hc]. exists c. by right.
    + intros [c Hc]. exists c. by apply elem_of_cons in Hc as [|].
  - split; [done|]. intros [c Hc]. log_inv.
  - split; [done|]. intros [c Hc].
    pose proof (fetchify_events _ _ _ _ _ Hf) as Cf.
    apply elem_of_cons in Hc as [|Hc]; [done|].
    apply elem_of_cons in Hc as [|Hc]; [done|]. off_class Hc.
  - pose proof (fetchify_events _ _ _ _ _ Hf) as Cf.
    destruct (build_outcome _ _ _ _ _ _ Hb) as [_ ->]. split.
    + intros [c Hc]. exists c. do 2 right. apply elem_of_app. by right.
    + intros [c Hc]. exists c.
      apply elem_of_cons in Hc as [|Hc]; [done|].
      apply elem_of_cons in Hc as [|Hc]; [done|].
      apply elem_of_app in Hc as [Hc|Hc]; [off_class Hc|done].
Qed.


(** X16. When the directory of the version cannot be created,
    [installVer] returns that error, wrapped, having done nothing but
    the presence check and the attempt: nothing is fetched, nothing is
    built. *)
Theorem installVer_mkdir_failure root version h err evs dir perm e :
  installVer sys root version h = (err, evs) →
  EvMkdirAll dir perm (Some e) ∈ evs →
  err = Some ("failed to create source directory: " +:+ e) ∧
  ∃ s, evs = [EvStat (filepath_Join sys [root; version; "go"]) (Some s);
              EvMkdirAll (filepath_Join sys [root; version]) mode_0755 (Some e)].
Proof.
  intros H Hin.
  destruct (installVer_log _ _ _ _ _ H) as
    [(eb & hb & -> & Hb)
    |[(s & m & -> & ->)
     |[(s & e' & ef & hf & -> & Hf & ->)
      |(s & ef & eb & hf & hb & -> & Hf & Hb)]]].
  - destruct (build_outcome _ _ _ _ _ _ Hb) as [Cb _]. log_inv.
  - log_inv. eauto.
  - pose proof (fetchify_events _ _ _ _ _ Hf) as Cf.
    apply elem_of_cons in Hin as [|Hin]; [done|].
    apply elem_of_cons in Hin as [|Hin]; [done|]. off_class Hin.
  - pose proof (fetchify_events _ _ _ _ _ Hf) as Cf.
    destruct (build_outcome _ _ _ _ _ _ Hb) as [Cb _].
    apply elem_of_cons in Hin as [|Hin]; [done|].
    apply elem_of_cons in Hin as [|Hin]; [done|].
    apply elem_of_app in Hin as [Hin|Hin]; off_class Hin.
Qed.

(** X17. [installVer] asks the network for the source archive of the
    version on dl.google.com and for its [.asc], and for nothing else;
    the files it creates are the archive file of the version and that
    name with [.asc]. *)
Theorem installVer_contacts_only_the_archive root version h err evs :
  installVer sys root version h = (err, evs) →
  (∀ url x, EvGet url x ∈ evs →
     url = archiveURL version ∨ url = archiveURL version +:+ ".asc") ∧
  (∀ name x, EvCreate name x ∈ evs →
     name = archiveFile sys root version ∨
     name = archiveFile sys root version +:+ ".asc").
Proof.
  intros H.
  assert (∀ ev, (∃ url x, ev = EvGet url x) ∨ (∃ name x, ev = EvCreate name x) →
            ev ∈ evs →
            ∃ ef hf ferr, ev ∈ ef ∧
              fetchify sys (archiveURL version) (archiveFile sys root version) hf
              = (ferr, ef)) as Hfrom.
  { intros ev Hev Hin.
    destruct (installVer_log _ _ _ _ _ H) as
      [(eb & hb & -> & Hb)
      |[(s & m & -> & ->)
       |[(s & e & ef & hf & -> & Hf & ->)
        |(s & ef & eb & hf & hb & -> & Hf & Hb)]]].
    - destruct (build_outcome _ _ _ _ _ _ Hb) as [Cb _].
      destruct Hev as [(? & ? & ->)|(? & ? & ->)]; log_inv.
    - destruct Hev as [(? & ? & ->)|(? & ? & ->)]; log_inv.
    - exists ef, hf, (Some e). split; [|done].
      destruct Hev as [(? & ? & ->)|(? & ? & ->)];
        (apply elem_of_cons in Hin as [|Hin]; [done|]);
        (apply elem_of_cons in Hin as [|Hin]; [done|]); done.
    - exists ef, hf, None. split; [|done].
      destruct (build_outcome _ _ _ _ _ _ Hb) as [Cb _].
      destruct Hev as [(? & ? & ->)|(? & ? & ->)];
        (apply elem_of_cons in Hin as [|Hin]; [done|]);
        (apply elem_of_cons in Hin as [|Hin]; [done|]);
        (apply elem_of_app in Hin as [Hin|Hin]; [done|off_class Hin]). }
  split.
  - intros url x Hin.
    destruct (Hfrom _ (or_introl (ex_intro _ url (ex_intro _ x eq_refl))) Hin)
      as (ef & hf & ferr & Hin' & Hf).
    destruct (fetchify_gets _ _ _ _ _ _ _ Hf Hin') as [->|[-> _]]; auto.
  - intros name x Hin.
    destruct (Hfrom _ (or_intror (ex_intro _ name (ex_intro _ x eq_refl))) Hin)
      as (ef & hf & ferr & Hin' & Hf).
    apply (fetchify_creates _ _ _ _ _ _ _ Hf Hin').
Qed.

(** X18. When the extraction fails, [installVer] returns its error
    (under the words [failed to verify]) and does not run the make
    script. *)
Theorem installVer_extraction_failure root version h err evs f dir e :
  installVer sys root version h = (err, evs) →
  EvUntar f dir (Some e) ∈ evs →
  err = Some ("failed to verify: " +:+ e) ∧ ∀ c r, EvRun c r ∉ evs.
Proof.
  intros H Hin.
  destruct (installVer_log _ _ _ _ _ H) as
    [(eb & hb & -> & Hb)
    |[(s & m & -> & ->)
     |[(s & e' & ef & hf & -> & Hf & ->)
      |(s & ef & eb & hf & hb & -> & Hf & Hb)]]].
  - destruct (build_outcome _ _ _ _ _ _ Hb) as [Cb _]. log_inv.
  - log_inv.
  - pose proof (fetchify_events _ _ _ _ _ Hf) as Cf.
    apply elem_of_cons in Hin as [|Hin]; [done|].
    apply elem_of_cons in Hin as [|Hin]; [done|].
    destruct (fetchify_untar _ _ _ _ _ _ _ _ Hf Hin) as ([= ->] & _).
    split; [done|]. intros c r Hr.
    apply elem_of_cons in Hr as [|Hr]; [done|].
    apply elem_of_cons in Hr as [|Hr]; [done|]. off_class Hr.
  - exfalso. destruct (build_outcome _ _ _ _ _ _ Hb) as [Cb _].
    apply elem_of_cons in Hin as [|Hin]; [done|].
    apply elem_of_cons in Hin as [|Hin]; [done|].
    apply elem_of_app in Hin as [Hin|Hin]; [|off_class Hin].
    by destruct (fetchify_untar _ _ _ _ _ _ _ _ Hf Hin) as (? & _).
Qed.

End io_more.

(** ** The dispatcher *)

Lemma printNames_log entries h :
  printNames entries h = (tt, EvPrintln <$> entries).
Proof.
  revert h. induction entries as [|entry entries IH]; intros h; [done|].
  simpl. unfold bind, emit. by rewrite IH.
Qed.

Section main_more.

Variable sys : Sys.

(** [main] from the point where the root exists: what it does with its
    arguments. *)
Lemma main_log h code evs root :
  main sys h = (code, evs) →
  goroot sys "gover" = Ok root →
  os_MkdirAll sys h root mode_0755 = None →
  ∃ rest, evs = started root ++ rest ∧
    match os_Args sys with
    | [] => code = 2%Z ∧ rest = [EvPanic "index out of range [1] with length 0"]
    | [_] =>
        code = 1%Z ∧
        rest = [EvLog "gover: usage: gover [download|version|list]"]
    | _ :: arg1 :: args =>
        if decide (arg1 = "download") then
          match args with
          | [version] =>
              ∃ ierr ei,
                installVer sys root version (h ++ started root) = (ierr, ei) ∧
                match ierr with
                | Some e => code = 1%Z ∧ rest = ei ++ [EvLog ("gover: " +:+ e)]
                | None =>
                    code = 0%Z ∧
                    rest = ei ++ [EvLog ("Success. You may now run 'gover "
                                         +:+ version +:+ "'!")]
                end
          | _ => code = 1%Z ∧
                 rest = [EvLog "gover: usage: gover download [version]"]
          end
        else if decide (arg1 = "list") then
          match os_ReadDir sys (h ++ started root) root with
          | Err e => code = 1%Z ∧ rest = [EvReadDir root (Err e); EvLog e]
          | Ok entries =>
              code = 0%Z ∧
              rest = EvReadDir root (Ok entries) :: (EvPrintln <$> entries)
          end
        else
          match os_Stat sys (h ++ started root) (gobinOf sys root arg1) with
          | Some s =>
              code = 1%Z ∧
              rest = [EvStat (gobinOf sys root arg1) (Some s);
                      EvLog ("gover: not downloaded. Run 'gover download' to install to "
                             +:+ root)]
          | None =>
              ∃ r, rest = EvStat (gobinOf sys root arg1) None
                          :: EvRun (launchCmd sys root arg1 args) r
                          :: match r with
                             | Some (OtherError e) =>
                                 [EvLog ("gover: failed to execute "
                                         +:+ gobinOf sys root arg1 +:+ ": " +:+ e)]
                             | _ => []
                             end ∧
                   code = match r with None => 0%Z | Some _ => 1%Z end
          end
    end.
Proof.
  unfold main. intros H Hroot Hmk. rewrite Hroot in H.
  io_bind in H as r0 e0 Hc. unfold call in Hc. rewrite Hmk in Hc. simplify_eq.
  do 4 io_emit in H. eexists. split.
  { unfold started, sandbox. simpl. reflexivity. }
  assert (((((h ++ [EvMkdirAll root mode_0755 None]) ++
            [EvPledge "stdio tty unveil rpath cpath wpath proc dns inet fattr exec"]) ++
           [EvUnveil "/etc" "r"]) ++ [EvUnveil root "rwxc"]) ++ [EvUnveilBlock]
          = h ++ started root) as Hh.
  { unfold started, sandbox. by rewrite <- !app_assoc. }
  rewrite Hh in H. clear Hh.
  destruct (os_Args sys) as [|prog [|arg1 args]].
  - unfold Fatalf in H. io_run in H. done.
  - unfold Fatalf in H. io_run in H. done.
  - destruct (decide (arg1 = "download")) as [->|Hnd].
    + destruct args as [|version [|more args]].
      * unfold Fatalf in H. io_run in H. done.
      * io_bind in H as ierr ei Hi. exists ierr, ei. split; [exact Hi|].
        destruct ierr; unfold Fatalf in H; io_run in H; done.
      * unfold Fatalf in H. io_run in H. done.
    + destruct (decide (arg1 = "list")) as [->|Hnl].
      * io_bind in H as r e1 Hr. unfold call in Hr. simplify_eq.
        destruct (os_ReadDir _ _ _) as [entries|e].
        -- io_bind in H as u e2 Hp. rewrite printNames_log in Hp.
           unfold ret in H. simplify_eq. by rewrite app_nil_r.
        -- unfold Fatalf in H. io_run in H. done.
      * io_bind in H as s e1 Hs. unfold call in Hs. simplify_eq.
        fold (gobinOf sys root arg1) in *.
        destruct (os_Stat _ _ _) as [s|].
        -- unfold Fatalf in H. io_run in H. done.
        -- io_bind in H as r e2 Hr. unfold call in Hr. simplify_eq.
           destruct (cmd_Run _ _ _) as [[e|e]|];
             unfold Fatalf, bind, emit, ret in H; simplify_eq.
           ++ by exists (Some (ExitError e)).
           ++ by exists (Some (OtherError e)).
           ++ by exists None.
Qed.

(** X20. Without a home directory (the variable of the platform is
    empty and, on the default family, the lookup of the user gives
    none) [main] logs the error and exits with status 1: it creates
    nothing, declares no sandbox and does not look at its arguments. *)
Theorem main_without_home_stops h :
  os_Getenv sys (homeVar sys) = "" →
  (defaultFamily sys → ∀ d, user_Current sys = Ok d → d = "") →
  ∃ e, homedir sys = Err e ∧
       main sys h =
         (1%Z, [EvLog ("gover: failed to get home directory: " +:+ e)]).
Proof.
  intros Hv Hu.
  assert (∃ e, homedir sys = Err e) as [e He].
  { revert Hv Hu. unfold homedir, homeVar, defaultFamily. intros Hv Hu.
    repeat case_decide; try congruence; eauto.
    destruct (user_Current sys) as [d|] eqn:Hc; [|eauto].
    case_decide; [|eauto]. exfalso. eauto. }
  exists e. split; [done|]. unfold main, goroot. rewrite He. reflexivity.
Qed.

Lemma install_not_sandbox ev : installEvent ev → ¬ sandboxEvent ev.
Proof. destruct ev; simpl; tauto. Qed.

(** X21. Once the root exists, [main] declares the sandbox, and it does
    so once: the pledge, the two unveils and the block come right after
    the creation of the root, and nothing that follows is a sandbox
    call. *)
Theorem main_declares_sandbox_once h code evs root :
  main sys h = (code, evs) →
  goroot sys "gover" = Ok root →
  os_MkdirAll sys h root mode_0755 = None →
  ∃ rest, evs = EvMkdirAll root mode_0755 None :: sandbox root ++ rest ∧
          Forall (λ ev, ¬ sandboxEvent ev) rest.
Proof.
  intros H Hroot Hmk.
  destruct (main_log _ _ _ _ H Hroot Hmk) as (rest & -> & Hrest).
  exists rest. split; [done|].
  destruct (os_Args sys) as [|prog [|arg1 args]].
  - destruct Hrest as [_ ->]. repeat constructor; simpl; tauto.
  - destruct Hrest as [_ ->]. repeat constructor; simpl; tauto.
  - destruct (decide (arg1 = "download")) as [Hd|Hd].
    + destruct args as [|version [|more args]].
      * destruct Hrest as [_ ->]. repeat constructor; simpl; tauto.
      * destruct Hrest as (ierr & ei & Hi & Hr).
        pose proof (Forall_impl _ _ _ (installVer_events _ _ _ _ _ _ Hi)
                      install_not_sandbox) as Hc.
        destruct ierr; destruct Hr as [_ ->]; apply Forall_app;
          (split; [done|repeat constructor; simpl; tauto]).
      * destruct Hrest as [_ ->]. repeat constructor; simpl; tauto.
    + destruct (decide (arg1 = "list")) as [Hl|Hl].
      * destruct (os_ReadDir _ _ _) as [entries|e]; destruct Hrest as [_ ->].
        -- constructor; [simpl; tauto|]. apply Forall_fmap, Forall_forall.
           intros x _. simpl. tauto.
        -- repeat constructor; simpl; tauto.
      * destruct (os_Stat _ _ _) as [s|].
        -- destruct Hrest as [_ ->]. repeat constructor; simpl; tauto.
        -- destruct Hrest as (r & -> & _).
           destruct r as [[e|e]|]; repeat constructor; simpl; tauto.
Qed.

(** X22. [download] takes exactly one version: with none, or with more
    than one argument after it, [main] logs the usage and exits with
    status 1, and installs nothing. *)
Theorem main_download_needs_one_version h code evs root prog args :
  main sys h = (code, evs) →
  goroot sys "gover" = Ok root →
  os_MkdirAll sys h root mode_0755 = None →
  os_Args sys = prog :: "download" :: args →
  length args ≠ 1%nat →
  code = 1%Z ∧
  evs = started root ++ [EvLog "gover: usage: gover download [version]"].
Proof.
  intros H Hroot Hmk Hargs Hlen.
  destruct (main_log _ _ _ _ H Hroot Hmk) as (rest & -> & Hrest).
  rewrite Hargs in Hrest. rewrite decide_True in Hrest by done.
  destruct args as [|version [|more args]]; [|done|];
    by destruct Hrest as [-> ->].
Qed.

(** X23. [download VERSION] runs [installVer] for that version under
    the root and nothing else after the start; it exits with status 0
    exactly when the make script of the version ran and succeeded, and
    with status 1 otherwise, and its last action is one log line: the
    success message, or the error of [installVer]. *)
Theorem main_download_installs h code evs root prog version :
  main sys h = (code, evs) →
  goroot sys "gover" = Ok root →
  os_MkdirAll sys h root mode_0755 = None →
  os_Args sys = [prog; "download"; version] →
  ∃ ierr ei,
    installVer sys root version (h ++ started root) = (ierr, ei) ∧
    evs = started root ++ ei ++
          [EvLog match ierr with
                 | Some e => "gover: " +:+ e
                 | None => "Success. You may now run 'gover "
                           +:+ version +:+ "'!"
                 end] ∧
    code = match ierr with Some _ => 1%Z | None => 0%Z end ∧
    (code = 0%Z ↔ ∃ c, EvRun c None ∈ evs).
Proof.
  intros H Hroot Hmk Hargs.
  destruct (main_log _ _ _ _ H Hroot Hmk) as (rest & -> & Hrest).
  rewrite Hargs in Hrest. rewrite decide_True in Hrest by done.
  destruct Hrest as (ierr & ei & Hi & Hr). exists ierr, ei.
  assert (ierr = None ↔ ∃ c, EvRun c None ∈ ei) as Hiff.
  { destruct (installVer_log _ _ _ _ _ _ Hi) as
      [(eb & hb & -> & Hb)
      |[(s & m & -> & ->)
       |[(s & e & ef & hf & -> & Hf & ->)
        |(s & ef & eb & hf & hb & -> & Hf & Hb)]]].
    - destruct (build_outcome _ _ _ _ _ _ Hb) as [_ ->]. split.
      + intros [c Hc]. exists c. by right.
      + intros [c Hc]. exists c. by apply elem_of_cons in Hc as [|].
    - split; [done|]. intros [c Hc]. log_inv.
    - split; [done|]. intros [c Hc].
      pose proof (fetchify_events _ _ _ _ _ _ Hf) as Cf.
      apply elem_of_cons in Hc as [|Hc]; [done|].
      apply elem_of_cons in Hc as [|Hc]; [done|].
      apply (proj1 (Forall_forall _ _) Cf) in Hc. done.
    - pose proof (fetchify_events _ _ _ _ _ _ Hf) as Cf.
      destruct (build_outcome _ _ _ _ _ _ Hb) as [_ ->]. split.
      + intros [c Hc]. exists c. do 2 right. apply elem_of_app. by right.
      + intros [c Hc]. exists c.
        apply elem_of_cons in Hc as [|Hc]; [done|].
        apply elem_of_cons in Hc as [|Hc]; [done|].
        apply elem_of_app in Hc as [Hc|Hc]; [|done].
        apply (proj1 (Forall_forall _ _) Cf) in Hc. done. }
  split; [exact Hi|].
  assert (∀ c, EvRun c None ∈ started root ++ rest ↔ EvRun c None ∈ rest) as Hst.
  { intros c. rewrite elem_of_app. split; [|auto].
    intros [Hin|Hin]; [|done]. unfold started, sandbox in Hin. log_inv. }
  destruct ierr as [e|]; destruct Hr as [-> ->]; (split; [done|]);
    (split; [done|]); split.
  - done.
  - intros [c Hc]. apply Hst in Hc. apply elem_of_app in Hc as [Hc|Hc]; [|log_inv].
    assert (Some e = None) by (apply Hiff; eauto). done.
  - intros _. destruct (proj1 Hiff eq_refl) as [c Hc]. exists c.
    apply Hst, elem_of_app. by left.
  - done.
Qed.

(** X24. [list] prints the names [os.ReadDir] gives for the root, one
    line each, in that order, and exits with status 0; any argument
    after [list] is ignored.  When the root cannot be read it logs the
    error and exits with status 1. *)
Theorem main_list_prints_entries h code evs root prog args :
  main sys h = (code, evs) →
  goroot sys "gover" = Ok root →
  os_MkdirAll sys h root mode_0755 = None →
  os_Args sys = prog :: "list" :: args →
  match os_ReadDir sys (h ++ started root) root with
  | Ok entries =>
      code = 0%Z ∧
      evs = started root ++
            EvReadDir root (Ok entries) :: (EvPrintln <$> entries)
  | Err e =>
      code = 1%Z ∧ evs = started root ++ [EvReadDir root (Err e); EvLog e]
  end.
Proof.
  intros H Hroot Hmk Hargs.
  destruct (main_log _ _ _ _ H Hroot Hmk) as (rest & -> & Hrest).
  rewrite Hargs in Hrest. rewrite decide_False, decide_True in Hrest by done.
  destruct (os_ReadDir _ _ _); by destruct Hrest as [-> ->].
Qed.

(** X25. Asked to run a version whose binary [os.Stat] does not find,
    [main] logs that it is not downloaded and exits with status 1: it
    runs nothing, fetches nothing and creates nothing below the
    root. *)
Theorem main_launch_not_installed h code evs root prog version args s :
  main sys h = (code, evs) →
  goroot sys "gover" = Ok root →
  os_MkdirAll sys h root mode_0755 = None →
  os_Args sys = prog :: version :: args →
  version ≠ "download" → version ≠ "list" →
  os_Stat sys (h ++ started root) (gobinOf sys root version) = Some s →
  code = 1%Z ∧
  evs = started root ++
        [EvStat (gobinOf sys root version) (Some s);
         EvLog ("gover: not downloaded. Run 'gover download' to install to "
                +:+ root)].
Proof.
  intros H Hroot Hmk Hargs Hnd Hnl Hstat.
  destruct (main_log _ _ _ _ H Hroot Hmk) as (rest & -> & Hrest).
  rewrite Hargs in Hrest. rewrite !decide_False in Hrest by done.
  rewrite Hstat in Hrest. by destruct Hrest as [-> ->].
Qed.

(** X26. Asked to run a version whose binary is there, [main] runs that
    binary with the remaining arguments, the three standard streams and
    the composed environment, and does nothing else: no request, no
    file, no build.  It exits with status 0 when the run returns no
    error and with status 1 otherwise, whatever the status of the
    child; only an error that is not an exit status is logged. *)
Theorem main_launch_runs_binary h code evs root prog version args :
  main sys h = (code, evs) →
  goroot sys "gover" = Ok root →
  os_MkdirAll sys h root mode_0755 = None →
  os_Args sys = prog :: version :: args →
  version ≠ "download" → version ≠ "list" →
  os_Stat sys (h ++ started root) (gobinOf sys root version) = None →
  ∃ r tail,
    evs = started root ++
          EvStat (gobinOf sys root version) None
          :: EvRun (launchCmd sys root version args) r :: tail ∧
    (code = 0%Z ↔ r = None) ∧ (code = 0%Z ∨ code = 1%Z) ∧
    match r with
    | Some (OtherError e) =>
        tail = [EvLog ("gover: failed to execute "
                       +:+ gobinOf sys root version +:+ ": " +:+ e)]
    | _ => tail = []
    end.
Proof.
  intros H Hroot Hmk Hargs Hnd Hnl Hstat.
  destruct (main_log _ _ _ _ H Hroot Hmk) as (rest & -> & Hrest).
  rewrite Hargs in Hrest. rewrite !decide_False in Hrest by done.
  rewrite Hstat in Hrest. destruct Hrest as (r & -> & ->).
  exists r. eexists. split; [reflexivity|].
  destruct r as [[e|e]|]; split_and!; auto; done.
Qed.

Lemma envKey_overrides lower c x :
  envKey lower c ("GOROOT=" +:+ x) = Some (if c then "goroot" else "GOROOT") ∧
  envKey lower c ("PATH=" +:+ x) = Some (if c then "path" else "PATH").
Proof. destruct c; split; reflexivity. Qed.

(** X27. The environment composed for the launched binary holds the
    entry [GOROOT=] with the root of the version and the entry [PATH=]
    with the search path that starts with its [bin] directory; each is
    the only entry with its key under the comparison of the platform,
    whatever the environment of the process held for it; and every
    other entry is an entry of the environment of the process. *)
Theorem launchEnv_overrides root version :
  let G := "GOROOT=" +:+ gorootOf sys root version in
  let P := "PATH=" +:+ launchPath sys root version in
  let key := envKey (unicode_ToLower sys) (caseInsensitiveEnv sys) in
  Env (launchCmd sys root version []) = Some (launchEnv sys root version) ∧
  G ∈ launchEnv sys root version ∧
  P ∈ launchEnv sys root version ∧
  (∀ e, e ∈ launchEnv sys root version → key e = key G → e = G) ∧
  (∀ e, e ∈ launchEnv sys root version → key e = key P → e = P) ∧
  (∀ e, e ∈ launchEnv sys root version →
        e = G ∨ e = P ∨ e ∈ os_Environ sys).
Proof.
  intros G P key. unfold launchEnv. fold G. fold P.
  destruct (envKey_overrides (unicode_ToLower sys) (caseInsensitiveEnv sys)
              (gorootOf sys root version)) as [HG _].
  destruct (envKey_overrides (unicode_ToLower sys) (caseInsensitiveEnv sys)
              (launchPath sys root version)) as [_ HP].
  fold G in HG. fold P in HP.
  destruct (dedup_last_override (unicode_ToLower sys) (caseInsensitiveEnv sys)
              (os_Environ sys) G [P] _ HG) as [GIn GOnly].
  { intros e ->%list_elem_of_singleton. rewrite HP.
    by destruct (caseInsensitiveEnv sys). }
  destruct (dedup_last_override (unicode_ToLower sys) (caseInsensitiveEnv sys)
              (os_Environ sys ++ [G]) P [] _ HP) as [PIn POnly].
  { intros e He. by apply elem_of_nil in He. }
  rewrite <- app_assoc in PIn, POnly. simpl in PIn, POnly.
  split_and!; [done|done|done| | |].
  - intros e He Hk. apply GOnly; [done|]. unfold key in Hk. by rewrite Hk.
  - intros e He Hk. apply POnly; [done|]. unfold key in Hk. by rewrite Hk.
  - intros e He%dedup_entries_from_input.
    apply elem_of_app in He as [He|He]; [auto|].
    apply elem_of_cons in He as [->|He]; [auto|].
    apply list_elem_of_singleton in He as ->. auto.
Qed.

End main_more.

(** ** The theorems above, at work on concrete inputs *)

Lemma dedupEnv_entries_from_input_witness :
  "A=3" ∈ dedupEnv id false ["A=1"; "B=2"; "A=3"] ∧
  "A=3" ∈ ["A=1"; "B=2"; "A=3"].
Proof.
  assert ("A=3" ∈ dedupEnv id false ["A=1"; "B=2"; "A=3"]) as Hin
    by (vm_compute; log_find).
  split; [exact Hin|].
  exact (proj1 (dedupEnv_entries_from_input id false ["A=1"; "B=2"; "A=3"])
           _ Hin).
Defined.

Lemma dedupEnv_length_witness :
  length (dedupEnv id false ["A=1"; "B=2"]) = length ["A=1"; "B=2"] ∧
  dedupEnv id false ["A=1"; "B=2"] = ["A=1"; "B=2"].
Proof.
  split; [reflexivity|].
  exact (proj2 (dedupEnv_length id false ["A=1"; "B=2"]) eq_refl).
Defined.

Lemma dedupEnv_unchanged_iff_witness :
  dedupEnv id false ["A=1"; "B=2"] = ["A=1"; "B=2"] ∧
  distinctKeys id false ["A=1"; "B=2"].
Proof.
  split; [reflexivity|].
  exact (proj1 (dedupEnv_unchanged_iff id false ["A=1"; "B=2"]) eq_refl).
Defined.

Lemma dedupEnv_last_override_witness :
  envKey id false "A=9" = Some "A" ∧
  "A=9" ∈ dedupEnv id false (["A=1"] ++ "A=9" :: ["B=2"]).
Proof.
  split; [reflexivity|].
  refine (proj1 (dedupEnv_last_override id false ["A=1"] "A=9" ["B=2"] "A"
                   eq_refl _)).
  intros e He. apply list_elem_of_singleton in He. rewrite He. discriminate.
Defined.

Lemma dedupLoop_saw_indexes_out_witness :
  (dedupLoop id false ["A=1"; "A=2"] ([], ∅)).2 !! "A" = Some 0 ∧
  (0 < length (dedupLoop id false ["A=1"; "A=2"] ([], ∅)).1)%nat.
Proof.
  assert ((dedupLoop id false ["A=1"; "A=2"] ([], ∅)).2 !! "A" = Some 0) as Hs
    by (vm_compute; reflexivity).
  split; [exact Hs|].
  exact (proj1 (proj1 (dedupLoop_saw_indexes_out id false ["A=1"; "A=2"])
                  "A" 0 Hs)).
Defined.

Lemma envKey_parses_key_value_witness :
  envKey id false "A=1" = Some "A" ∧
  ∃ v, "A=1" = ("A" +:+ "=" +:+ v).
Proof.
  split; [reflexivity|].
  exact (proj2 (proj2 (proj1 (proj1 (envKey_parses_key_value id "A=1") "A")
                         eq_refl))).
Defined.

Lemma fetch_touches_only_its_arguments_witness :
  let run := fetch sysFresh (archiveURL go121)
               (archiveFile sysFresh gopherRoot go121) [] in
  EvGet (archiveURL go121) (Ok {| StatusCode := 200; Body := "bytes" |}) ∈ run.2 ∧
  EvCreate (archiveFile sysFresh gopherRoot go121) None ∈ run.2.
Proof.
  intros run.
  assert (EvGet (archiveURL go121)
            (Ok {| StatusCode := 200; Body := "bytes" |}) ∈ run.2) as Hin
    by (vm_compute; log_find).
  split; [exact Hin|].
  exact (proj2 (proj1 (fetch_touches_only_its_arguments sysFresh (archiveURL go121)
                  (archiveFile sysFresh gopherRoot go121) [] run.1 run.2
                         (surjective_pairing run)) _ _ Hin)).
Defined.

Lemma fetchify_bad_key_stops_first_witness :
  let run := fetchify sysBadKey (archiveURL go121)
               (archiveFile sysBadKey gopherRoot go121) [] in
  EvReadKeyRing (Some "openpgp: invalid argument: no armored data found") ∈ run.2 ∧
  run.2 = [EvReadKeyRing (Some "openpgp: invalid argument: no armored data found")].
Proof.
  intros run.
  assert (EvReadKeyRing (Some "openpgp: invalid argument: no armored data found")
            ∈ run.2) as Hin by (vm_compute; log_find).
  split; [exact Hin|].
  exact (proj2 (fetchify_bad_key_stops_first sysBadKey (archiveURL go121)
                  (archiveFile sysBadKey gopherRoot go121) [] run.1 run.2 _
                  (surjective_pairing run) Hin)).
Defined.

Lemma fetchify_requests_witness :
  let run := fetchify sysFresh (archiveURL go121)
               (archiveFile sysFresh gopherRoot go121) [] in
  EvGet (archiveURL go121 +:+ ".asc")
        (Ok {| StatusCode := 200; Body := "bytes" |}) ∈ run.2 ∧
  (archiveURL go121 +:+ ".asc" = archiveURL go121 ∨
   (archiveURL go121 +:+ ".asc" = archiveURL go121 +:+ ".asc" ∧
    ∃ resp, EvGet (archiveURL go121) (Ok resp) ∈ run.2)).
Proof.
  intros run.
  assert (EvGet (archiveURL go121 +:+ ".asc")
            (Ok {| StatusCode := 200; Body := "bytes" |}) ∈ run.2) as Hin
    by (vm_compute; log_find).
  split; [exact Hin|].
  exact (proj1 (fetchify_requests sysFresh (archiveURL go121)
                  (archiveFile sysFresh gopherRoot go121) [] run.1 run.2
                  (surjective_pairing run)) _ _ Hin).
Defined.

Lemma fetchify_extracts_the_archive_witness :
  let run := fetchify sysFresh (archiveURL go121)
               (archiveFile sysFresh gopherRoot go121) [] in
  EvUntar {| Name := archiveFile sysFresh gopherRoot go121;
             data := "bytes"; offset := 0 |}
          "/home/gopher/sdk/gover/1.21.0" None ∈ run.2 ∧
  run.1 = None.
Proof.
  intros run.
  assert (EvUntar {| Name := archiveFile sysFresh gopherRoot go121;
                     data := "bytes"; offset := 0 |}
            "/home/gopher/sdk/gover/1.21.0" None ∈ run.2) as Hin
    by (vm_compute; log_find).
  split; [exact Hin|].
  exact (proj1 (fetchify_extracts_the_archive sysFresh (archiveURL go121)
                  (archiveFile sysFresh gopherRoot go121) [] run.1 run.2 _ _ _
                  (surjective_pairing run) Hin)).
Defined.


Lemma fetchify_succeeds_iff_extracted_witness :
  let run := fetchify sysBadArchive (archiveURL go121)
               (archiveFile sysBadArchive gopherRoot go121) [] in
  run.1 = Some "gzip: invalid header" ∧
  ¬ ∃ f dir, EvUntar f dir None ∈ run.2.
Proof.
  intros run. split; [reflexivity|]. intros Hex.
  pose proof (proj2 (proj1 (fetchify_succeeds_iff_extracted sysBadArchive (archiveURL go121)
                  (archiveFile sysBadArchive gopherRoot go121) []
                              run.1 run.2 (surjective_pairing run))) Hex) as Hn.
  discriminate Hn.
Defined.


Lemma installVer_succeeds_iff_built_witness :
  let run := installVer sysFresh gopherRoot go121 [] in
  run.1 = None ∧ ∃ c, EvRun c None ∈ run.2.
Proof.
  intros run. split; [reflexivity|].
  exact (proj1 (installVer_succeeds_iff_built sysFresh gopherRoot go121 [] run.1 run.2
                  (surjective_pairing run)) eq_refl).
Defined.


Lemma installVer_mkdir_failure_witness :
  let run := installVer sysReadOnly gopherRoot go121 [] in
  EvMkdirAll "/home/gopher/sdk/gover/1.21.0" mode_0755
    (Some "mkdir: read-only file system") ∈ run.2 ∧
  run.1 = Some "failed to create source directory: mkdir: read-only file system".
Proof.
  intros run.
  assert (EvMkdirAll "/home/gopher/sdk/gover/1.21.0" mode_0755
            (Some "mkdir: read-only file system") ∈ run.2) as Hin
    by (vm_compute; log_find).
  split; [exact Hin|].
  exact (proj1 (installVer_mkdir_failure sysReadOnly gopherRoot go121 [] run.1 run.2 _ _ _
                  (surjective_pairing run) Hin)).
Defined.

Lemma installVer_contacts_only_the_archive_witness :
  let run := installVer sysFresh gopherRoot go121 [] in
  EvGet (archiveURL go121 +:+ ".asc")
        (Ok {| StatusCode := 200; Body := "bytes" |}) ∈ run.2 ∧
  (archiveURL go121 +:+ ".asc" = archiveURL go121 ∨
   archiveURL go121 +:+ ".asc" = archiveURL go121 +:+ ".asc").
Proof.
  intros run.
  assert (EvGet (archiveURL go121 +:+ ".asc")
            (Ok {| StatusCode := 200; Body := "bytes" |}) ∈ run.2) as Hin
    by (vm_compute; log_find).
  split; [exact Hin|].
  exact (proj1 (installVer_contacts_only_the_archive sysFresh gopherRoot go121 [] run.1 run.2
                  (surjective_pairing run)) _ _ Hin).
Defined.

Lemma installVer_extraction_failure_witness :
  let run := installVer sysBadArchive gopherRoot go121 [] in
  EvUntar {| Name := archiveFile sysBadArchive gopherRoot go121;
             data := "bytes"; offset := 0 |}
          "/home/gopher/sdk/gover/1.21.0" (Some "gzip: invalid header") ∈ run.2 ∧
  run.1 = Some "failed to verify: gzip: invalid header".
Proof.
  intros run.
  assert (EvUntar {| Name := archiveFile sysBadArchive gopherRoot go121;
                     data := "bytes"; offset := 0 |}
            "/home/gopher/sdk/gover/1.21.0" (Some "gzip: invalid header")
            ∈ run.2) as Hin by (vm_compute; log_find).
  split; [exact Hin|].
  exact (proj1 (installVer_extraction_failure sysBadArchive gopherRoot go121 [] run.1 run.2
                  _ _ _ (surjective_pairing run) Hin)).
Defined.

Lemma main_without_home_stops_witness :
  os_Getenv sysHomeless (homeVar sysHomeless) = "" ∧
  ∃ e, main sysHomeless [] =
       (1%Z, [EvLog ("gover: failed to get home directory: " +:+ e)]).
Proof.
  split; [reflexivity|].
  destruct (main_without_home_stops sysHomeless [] eq_refl) as (e & _ & Hm).
  - intros _ d Hd. discriminate Hd.
  - exists e. exact Hm.
Defined.

Lemma main_declares_sandbox_once_witness :
  goroot sysFresh "gover" = Ok gopherRoot ∧
  ∃ rest, (main sysFresh []).2 =
          EvMkdirAll gopherRoot mode_0755 None :: sandbox gopherRoot ++ rest.
Proof.
  split; [reflexivity|].
  destruct (main_declares_sandbox_once sysFresh [] (main sysFresh []).1
              (main sysFresh []).2 gopherRoot (surjective_pairing _)
              eq_refl eq_refl) as (rest & Heq & _).
  exists rest. exact Heq.
Defined.

Lemma main_download_needs_one_version_witness :
  os_Args sysNoVersion = ["gover"; "download"] ∧
  (main sysNoVersion []).1 = 1%Z.
Proof.
  split; [reflexivity|].
  refine (proj1 (main_download_needs_one_version sysNoVersion []
                   (main sysNoVersion []).1 (main sysNoVersion []).2 gopherRoot
                   "gover" [] (surjective_pairing _) eq_refl eq_refl eq_refl _)).
  simpl. discriminate.
Defined.

Lemma main_download_installs_witness :
  os_Args sysFresh = ["gover"; "download"; go121] ∧
  ((main sysFresh []).1 = 0%Z ↔ ∃ c, EvRun c None ∈ (main sysFresh []).2).
Proof.
  split; [reflexivity|].
  destruct (main_download_installs sysFresh [] (main sysFresh []).1
              (main sysFresh []).2 gopherRoot "gover" go121
              (surjective_pairing _) eq_refl eq_refl eq_refl)
    as (ierr & ei & _ & _ & _ & Hiff).
  exact Hiff.
Defined.

Lemma main_list_prints_entries_witness :
  os_Args sysList = ["gover"; "list"; "extra"] ∧
  (main sysList []).1 = 0%Z ∧
  (main sysList []).2 =
    started gopherRoot ++ EvReadDir gopherRoot (Ok []) :: (EvPrintln <$> []).
Proof.
  split; [reflexivity|].
  exact (main_list_prints_entries sysList [] (main sysList []).1
           (main sysList []).2 gopherRoot "gover" ["extra"]
           (surjective_pairing _) eq_refl eq_refl eq_refl).
Defined.

Lemma main_launch_not_installed_witness :
  os_Stat sysNotInstalled ([] ++ started gopherRoot)
    (gobinOf sysNotInstalled gopherRoot go121) = notExist ∧
  (main sysNotInstalled []).1 = 1%Z.
Proof.
  split; [reflexivity|].
  refine (proj1 (main_launch_not_installed sysNotInstalled []
                   (main sysNotInstalled []).1 (main sysNotInstalled []).2
                   gopherRoot "gover" go121 ["build"] "no such file or directory"
                   (surjective_pairing _) eq_refl eq_refl eq_refl _ _ eq_refl));
    discriminate.
Defined.

Lemma main_launch_runs_binary_witness :
  os_Stat sysLaunch ([] ++ started gopherRoot)
    (gobinOf sysLaunch gopherRoot go121) = None ∧
  ∃ r tail,
    (main sysLaunch []).2 =
      started gopherRoot ++
      EvStat (gobinOf sysLaunch gopherRoot go121) None
      :: EvRun (launchCmd sysLaunch gopherRoot go121 ["version"]) r :: tail.
Proof.
  split; [reflexivity|].
  assert (go121 ≠ "download") as Hd by discriminate.
  assert (go121 ≠ "list") as Hl by discriminate.
  destruct (main_launch_runs_binary sysLaunch [] (main sysLaunch []).1
              (main sysLaunch []).2 gopherRoot "gover" go121 ["version"]
              (surjective_pairing _) eq_refl eq_refl eq_refl Hd Hl eq_refl)
    as (r & tail & Heq & _).
  exists r, tail. exact Heq.
Defined.

Lemma launchEnv_overrides_witness :
  launchEnv sysLaunch gopherRoot go121 =
    ["HOME=/home/gopher";
     "PATH=/home/gopher/sdk/gover/1.21.0/go/bin:/usr/bin";
     "GOROOT=/home/gopher/sdk/gover/1.21.0/go"] ∧
  "GOROOT=/home/gopher/sdk/gover/1.21.0/go" ∈ launchEnv sysLaunch gopherRoot go121.
Proof.
  split; [vm_compute; reflexivity|].
  exact (proj1 (proj2 (launchEnv_overrides sysLaunch gopherRoot go121))).
Defined.
